(** * Iceland Geoportal: route planning logic

    A shallow embedding of the route-planning code of the geoportal
    ([services/routing.js], [data/pois.js], [components/Map.js],
    [services/database.js], [services/export.js] and the route part of
    [app.js]) together with the properties the specification states about
    it.

    Numbers.  A JavaScript number is a binary64 value.  Two readings of the
    arithmetic of [services/routing.js] are given.

    - Module [Routing] reads numbers as real numbers ([R]) and keeps the
      arithmetic of the source operation for operation, without rounding.
      It serves the properties that do not depend on what an operation
      rounds to: the formula the fallback route follows, the order the
      sequencer visits, what the route aggregate stores and shows.
    - Module [Binary64] reads numbers as binary64 values ([float]) with the
      correctly rounded operations of IEEE 754, underflow, infinities and
      [NaN] included.  [Math.sin], [Math.cos] and [Math.atan2], whose values
      the language leaves to the engine, are parameters there.  It serves
      the properties of the values themselves: the sign and the symmetry of
      distances. *)

From Stdlib Require Import Floats.
From Stdlib Require Import Reals Lra Lia List String ZArith Bool.
From Stdlib Require Import DecimalString Permutation.
Import ListNotations.

#[local] Set Warnings "-inexact-float".

Open Scope R_scope.

(* ================================================================== *)
(** * JavaScript helpers *)
(* ================================================================== *)

Module Js.

(** Errors a call can end with ([throw], or a rejected promise for an
    [async] function). *)
Inductive Error : Type :=
| JsError (message : string)     (* [new Error(message)] *)
| TypeError                      (* property access on [undefined]; [fetch] failing *)
| SyntaxError.                   (* a body that is not JSON *)

Inductive Result (A : Type) : Type :=
| Ok (value : A)
| Throw (e : Error).

Arguments Ok {A} value.
Arguments Throw {A} e.

(** [Math.atan2(y, x)] on real arguments. *)
Definition Math_atan2 (y x : R) : R :=
  if Rlt_dec 0 x then atan (y / x)
  else if Rlt_dec x 0 then
    (if Rle_dec 0 y then atan (y / x) + PI else atan (y / x) - PI)
  else if Rlt_dec 0 y then PI / 2
  else if Rlt_dec y 0 then - (PI / 2)
  else 0.

(** [a || b] on numbers: [b] when [a] is falsy, that is [0]. *)
Definition num_or (a b : R) : R := if Req_dec_T a 0 then b else a.

(** [s || t] on strings: [t] when [s] is the empty string. *)
Definition str_or (s t : string) : string :=
  match s with EmptyString => t | _ => s end.

(** Decimal rendering of an array index, as a template literal does it. *)
Definition nat_to_string (n : nat) : string :=
  NilEmpty.string_of_uint (Nat.to_uint n).

(** [array.filter((_, i) => i !== k)] for an integer [k]. *)
Fixpoint filter_index_ne {A : Type} (l : list A) (i : nat) (k : Z) : list A :=
  match l with
  | [] => []
  | x :: t =>
      if (Z.of_nat i =? k)%Z then filter_index_ne t (S i) k
      else x :: filter_index_ne t (S i) k
  end.

(** [array[k]] for an integer [k]: [None] is [undefined]. *)
Definition index {A : Type} (l : list A) (k : Z) : option A :=
  if (k <? 0)%Z then None else nth_error l (Z.to_nat k).

(** [array.splice(k, 1)]: the removed elements and the array left. *)
Fixpoint splice1 {A : Type} (l : list A) (k : nat) : list A * list A :=
  match l, k with
  | [], _ => ([], [])
  | x :: t, O => ([x], t)
  | x :: t, S k' => let '(removed, rest) := splice1 t k' in (removed, x :: rest)
  end.

End Js.

(* ================================================================== *)
(** * services/routing.js, numbers read as real numbers *)
(* ================================================================== *)

Module Routing.

Import Js.

(** A coordinate is the two-element array [[lat, lng]]: [fst] is index 0,
    [snd] is index 1. *)
Definition LatLng : Type := (R * R)%type.

(** Data model invariant of a coordinate (decimal degrees). *)
Definition valid_coordinate (p : LatLng) : Prop :=
  -90 <= fst p <= 90 /\ -180 <= snd p <= 180.

Record TransportMode : Type := mkTransportMode {
  id : string;
  name : string;
  profile : string;
  icon : string;
  avgSpeed : R                    (* km/h *)
}.

Definition driving : TransportMode :=
  mkTransportMode "driving" "En coche" "driving" "car" 80.
Definition cycling : TransportMode :=
  mkTransportMode "cycling" "En bicicleta" "cycling" "bicycle" 20.
Definition walking : TransportMode :=
  mkTransportMode "walking" "A pie" "foot" "walking" 5.

(** [TransportModes[mode]]: [None] stands for a key with no profile entry
    (the source reads the result only through [?.profile] and [?.avgSpeed],
    which are [undefined] there). *)
Definition TransportModes (mode : string) : option TransportMode :=
  if String.eqb mode "driving" then Some driving
  else if String.eqb mode "cycling" then Some cycling
  else if String.eqb mode "walking" then Some walking
  else None.

Definition toRad (deg : R) : R := deg * (PI / 180).

(** The haversine term [a] of [haversineDistance]. *)
Definition haversine_a (point1 point2 : LatLng) : R :=
  let dLat := toRad (fst point2 - fst point1) in
  let dLon := toRad (snd point2 - snd point1) in
  sin (dLat / 2) * sin (dLat / 2) +
  cos (toRad (fst point1)) * cos (toRad (fst point2)) *
  sin (dLon / 2) * sin (dLon / 2).

(** Distance in kilometers. *)
Definition haversineDistance (point1 point2 : LatLng) : R :=
  let R_earth := 6371 in
  let a := haversine_a point1 point2 in
  let c := 2 * Math_atan2 (sqrt a) (sqrt (1 - a)) in
  R_earth * c.

(** GeoJSON geometry: a type tag and [[lng, lat]] positions. *)
Record Geometry : Type := mkGeometry {
  gtype : string;
  coordinates : list (R * R)
}.

Record Step : Type := mkStep {
  step_distance : R;
  step_duration : R;
  instruction : string;
  step_name : string
}.

Record Leg : Type := mkLeg {
  leg_distance : R;
  leg_duration : R;
  steps : list Step
}.

Record RoutePoint : Type := mkRoutePoint {
  point_name : string;
  location : LatLng
}.

(** The object [calculateRoute] resolves to.  [geometry] is [None] when the
    service sent none; [isFallback] is [false] where the source leaves the
    property out. *)
Record RouteData : Type := mkRouteData {
  distance : R;                   (* meters *)
  duration : R;                   (* seconds *)
  geometry : option Geometry;
  legs : list Leg;
  waypoints : list RoutePoint;
  isFallback : bool
}.

(** The loop
    [for (let i = 0; i < waypoints.length - 1; i++) totalDistance += ...].
    [fuel] bounds the number of iterations; the guard is the source's. *)
Fixpoint fallback_loop (fuel : nat) (waypoints : list LatLng) (i : nat)
    (totalDistance : R) : R :=
  match fuel with
  | O => totalDistance
  | S fuel' =>
      if (Z.of_nat i <? Z.of_nat (List.length waypoints) - 1)%Z then
        fallback_loop fuel' waypoints (S i)
          (totalDistance +
           haversineDistance (nth i waypoints (0, 0)) (nth (S i) waypoints (0, 0)))
      else totalDistance
  end.

(** [waypoints.map((wp, i) => ({name: `Punto ${i + 1}`, location: wp}))] *)
Fixpoint name_points (waypoints : list LatLng) (i : nat) : list RoutePoint :=
  match waypoints with
  | [] => []
  | wp :: t =>
      mkRoutePoint ("Punto " ++ nat_to_string (i + 1)) wp :: name_points t (S i)
  end.

Definition calculateFallbackRoute (waypoints : list LatLng) (mode : string)
    : RouteData :=
  let avgSpeed :=
    match TransportModes mode with
    | Some m => num_or (avgSpeed m) 80
    | None => 80
    end in
  let totalDistance := fallback_loop (List.length waypoints) waypoints 0 0 in
  let roadDistance := totalDistance * 1.3 in
  let duration := (roadDistance / avgSpeed) * 3600 in
  let geometry :=
    mkGeometry "LineString" (map (fun wp => (snd wp, fst wp)) waypoints) in
  mkRouteData (roadDistance * 1000) duration (Some geometry) []
    (name_points waypoints 0) true.

(** ** The routing service *)

(** The request of [calculateRoute]:
    [{OSRM_BASE_URL}/route/v1/{profile}/{lng,lat;...}?overview=full&geometries=geojson&steps=true].
    The URL is kept as its two varying parts. *)
Record Request : Type := mkRequest {
  req_profile : string;
  req_coordinates : list (R * R)          (* [lng, lat] *)
}.

Record OsrmStep : Type := mkOsrmStep {
  os_distance : R;
  os_duration : R;
  os_maneuver_type : string;
  os_name : string
}.

Record OsrmLeg : Type := mkOsrmLeg {
  ol_distance : R;
  ol_duration : R;
  ol_steps : list OsrmStep
}.

Record OsrmRoute : Type := mkOsrmRoute {
  or_distance : R;
  or_duration : R;
  or_geometry : option Geometry;
  or_legs : list OsrmLeg
}.

Record OsrmWaypoint : Type := mkOsrmWaypoint {
  ow_name : string;
  ow_location : R * R                      (* [lng, lat] *)
}.

Record OsrmPayload : Type := mkOsrmPayload {
  code : string;
  message : string;
  routes : list OsrmRoute;
  payload_waypoints : list OsrmWaypoint
}.

(** How [await fetch(url)] followed by [await response.json()] ends. *)
Inductive FetchOutcome : Type :=
| NetworkError                             (* [fetch] rejects *)
| Response (ok : bool) (status : nat) (body : option OsrmPayload).
                                           (* [None]: [response.json()] rejects *)

(** The service failed: network error, non-OK HTTP status, or a payload
    whose [code] is not ["Ok"]. *)
Definition service_failure (o : FetchOutcome) : Prop :=
  match o with
  | NetworkError => True
  | Response false _ _ => True
  | Response true _ (Some data) => code data <> "Ok"%string
  | Response true _ None => False
  end.

Definition insufficient_waypoints : Error :=
  JsError "Se necesitan al menos 2 puntos para calcular una ruta".

(** The body of the [try] block from the point where [fetch] settles. *)
Definition handleResponse (o : FetchOutcome) : Result RouteData :=
  match o with
  | NetworkError => Throw TypeError
  | Response ok status body =>
      if negb ok then
        Throw (JsError ("Error del servidor de routing: " ++ nat_to_string status))
      else
        match body with
        | None => Throw SyntaxError
        | Some data =>
            if negb (String.eqb (code data) "Ok") then
              Throw (JsError (str_or (message data) "Error al calcular la ruta"))
            else
              match routes data with
              | [] => Throw TypeError           (* [data.routes[0]] is [undefined] *)
              | route :: _ =>
                  Ok (mkRouteData
                        (or_distance route)
                        (or_duration route)
                        (or_geometry route)
                        (map (fun leg =>
                                mkLeg (ol_distance leg) (ol_duration leg)
                                  (map (fun step =>
                                          mkStep (os_distance step) (os_duration step)
                                            (os_maneuver_type step)
                                            (str_or (os_name step) "Sin nombre"))
                                       (ol_steps leg)))
                             (or_legs route))
                        (map (fun wp =>
                                mkRoutePoint (ow_name wp)
                                  (snd (ow_location wp), fst (ow_location wp)))
                             (payload_waypoints data))
                        false)
              end
        end
  end.

Definition buildRequest (waypoints : list LatLng) (mode : string) : Request :=
  let profile :=
    match TransportModes mode with
    | Some m => str_or (profile m) "driving"
    | None => "driving"%string
    end in
  mkRequest profile (map (fun wp => (snd wp, fst wp)) waypoints).

(** [try { ... } catch (error) { return calculateFallbackRoute(waypoints, mode) }]
    once the request has settled with outcome [o]. *)
Definition resumeRoute (waypoints : list LatLng) (mode : string)
    (o : FetchOutcome) : RouteData :=
  match handleResponse o with
  | Ok routeData => routeData
  | Throw _ => calculateFallbackRoute waypoints mode
  end.

(** [calculateRoute] up to [await fetch(url)]: the guard, and the request.
    [waypoints] is [None] for [null] or [undefined]. *)
Definition beginRoute (waypoints : option (list LatLng)) (mode : string)
    : Result Request :=
  match waypoints with
  | None => Throw insufficient_waypoints
  | Some wps =>
      if (List.length wps <? 2)%nat then Throw insufficient_waypoints
      else Ok (buildRequest wps mode)
  end.

(** [calculateRoute(waypoints, mode)].  [fetch] tells how each request ends.
    The result is the list of requests issued and what the promise settles
    to. *)
Definition calculateRoute (fetch : Request -> FetchOutcome)
    (waypoints : option (list LatLng)) (mode : string)
    : list Request * Result RouteData :=
  match beginRoute waypoints mode with
  | Throw e => ([], Throw e)
  | Ok request =>
      ([request],
       Ok (resumeRoute (match waypoints with Some wps => wps | None => [] end)
             mode (fetch request)))
  end.

(** ** Waypoint order *)

(** [dist < nearestDistance], where [None] is [Infinity]. *)
Definition lt_nearest (dist : R) (nearestDistance : option R) : bool :=
  match nearestDistance with
  | None => true
  | Some d => if Rlt_dec dist d then true else false
  end.

Section Optimize.

(** Waypoints are objects with a [coordinates] property. *)
Context {W : Type} (coords : W -> LatLng).

(** [remaining.forEach((wp, i) => { ... })] from index [i] on, threading
    [nearestIndex] and [nearestDistance]. *)
Fixpoint nearest_scan (current : W) (remaining : list W) (i : nat)
    (nearestIndex : nat) (nearestDistance : option R) : nat * option R :=
  match remaining with
  | [] => (nearestIndex, nearestDistance)
  | wp :: t =>
      let dist := haversineDistance (coords current) (coords wp) in
      if lt_nearest dist nearestDistance
      then nearest_scan current t (S i) i (Some dist)
      else nearest_scan current t (S i) nearestIndex nearestDistance
  end.

(** [while (remaining.length > 0) { ... }].  [None]: the iteration bound
    [fuel] was too small, or [splice] removed nothing (the source would push
    [undefined] and loop on). *)
Fixpoint optimize_loop (fuel : nat) (optimized remaining : list W)
    : option (Result (list W)) :=
  match remaining with
  | [] => Some (Ok optimized)
  | _ :: _ =>
      match fuel with
      | O => None
      | S fuel' =>
          match index optimized (Z.of_nat (List.length optimized) - 1) with
          | None => Some (Throw TypeError)        (* [current.coordinates] *)
          | Some current =>
              let '(nearestIndex, _) := nearest_scan current remaining 0 0 None in
              match splice1 remaining nearestIndex with
              | ([wp], rest) => optimize_loop fuel' (optimized ++ [wp]) rest
              | _ => None
              end
          end
      end
  end.

(** [optimizeWaypointOrder(waypoints, startIndex)].  When [startIndex] is
    not an index of [waypoints], [optimized] starts as [[undefined]] and the
    first [current.coordinates] throws. *)
Definition optimizeWaypointOrder (waypoints : list W) (startIndex : Z)
    : option (Result (list W)) :=
  if (List.length waypoints <=? 2)%nat then Some (Ok waypoints)
  else
    match index waypoints startIndex with
    | None => Some (Throw TypeError)
    | Some start =>
        let remaining := filter_index_ne waypoints 0 startIndex in
        optimize_loop (List.length remaining) [start] remaining
    end.

End Optimize.

End Routing.

(* ================================================================== *)
(** * data/pois.js *)
(* ================================================================== *)

Module Pois.

Import Routing.

Record Category : Type := mkCategory {
  cat_id : string;
  cat_name : string;
  cat_icon : string;
  cat_color : string
}.

(** A catalog entry, with the fields the route code reads. *)
Record Poi : Type := mkPoi {
  poi_id : string;
  poi_name : string;
  poi_category : string;
  poi_coordinates : LatLng;
  poi_description : string
}.

(** [categories.find(cat => cat.id === categoryId)] *)
Definition getCategoryById (categories : list Category) (categoryId : string)
    : option Category :=
  find (fun cat => String.eqb (cat_id cat) categoryId) categories.

(** [pois.find(poi => poi.id === poiId)] *)
Definition getPoiById (pois : list Poi) (poiId : string) : option Poi :=
  find (fun poi => String.eqb (poi_id poi) poiId) pois.

End Pois.

(* ================================================================== *)
(** * components/Map.js: route line and waypoint markers *)
(* ================================================================== *)

Module MapManager.

Import Routing.

(** What [this.routeLine] holds. *)
Inductive RouteLine : Type :=
| GeoJsonLine (geometry : Geometry)          (* [drawRoute] *)
| DashedPolyline (coordinates : list LatLng). (* [drawPolyline] *)

Record Marker : Type := mkMarker {
  marker_position : LatLng;
  marker_label : nat;                        (* [index + 1] *)
  marker_title : string
}.

Record State : Type := mkState {
  routeLine : option RouteLine;
  waypointMarkers : list Marker;
  popupOpen : bool
}.

Definition clearRoute (m : State) : State :=
  mkState None (waypointMarkers m) (popupOpen m).

Definition clearWaypointMarkers (m : State) : State :=
  mkState (routeLine m) [] (popupOpen m).

Definition addWaypointMarker (m : State) (coordinates : LatLng) (index : nat)
    (poiName : string) : State :=
  let title := Js.str_or poiName ("Punto " ++ Js.nat_to_string (index + 1)) in
  mkState (routeLine m)
    (waypointMarkers m ++ [mkMarker coordinates (index + 1) title])
    (popupOpen m).

(** [waypoints.forEach((wp, index) => this.addWaypointMarker(...))], on the
    coordinates and names of the waypoints. *)
Fixpoint addWaypointMarkers (m : State) (wps : list (LatLng * string))
    (index : nat) : State :=
  match wps with
  | [] => m
  | (c, n) :: t => addWaypointMarkers (addWaypointMarker m c index n) t (S index)
  end.

Definition updateWaypointMarkers (m : State) (wps : list (LatLng * string))
    : State :=
  addWaypointMarkers (clearWaypointMarkers m) wps 0.

Definition drawRoute (m : State) (geometry : Geometry) : State :=
  let m := clearRoute m in
  mkState (Some (GeoJsonLine geometry)) (waypointMarkers m) (popupOpen m).

Definition drawPolyline (m : State) (coordinates : list LatLng) : State :=
  let m := clearRoute m in
  mkState (Some (DashedPolyline coordinates)) (waypointMarkers m) (popupOpen m).

Definition clearRouteElements (m : State) : State :=
  clearWaypointMarkers (clearRoute m).

Definition closePopup (m : State) : State :=
  mkState (routeLine m) (waypointMarkers m) false.

End MapManager.

(* ================================================================== *)
(** * app.js: the route under construction *)
(* ================================================================== *)

Module App.

Import Js Routing Pois.

Record Waypoint : Type := mkWaypoint {
  id : string;
  name : string;
  coordinates : LatLng;
  category : string
}.

(** [this.currentRoute] *)
Record Route : Type := mkRoute {
  waypoints : list Waypoint;
  distance : R;
  duration : R;
  geometry : option Geometry;               (* [None] is [null] *)
  transportMode : string
}.

(** A call of [updateRouteOnMap] suspended at [await calculateRoute(...)]:
    the [coordinates] and the mode it passed. *)
Record Pending : Type := mkPending {
  pend_coordinates : list LatLng;
  pend_mode : string
}.

(** [showToast(message, type)] *)
Definition Toast : Type := (string * string)%type.

(** The application state the route code reads and writes.  The two stats
    fields hold the numbers last rendered into [#route-distance] and
    [#route-duration] (through [formatDistance] and [formatDuration]). *)
Record State : Type := mkState {
  currentRoute : Route;
  map : MapManager.State;
  shown_distance : R;
  shown_duration : R;
  statsHidden : bool;                       (* [#route-stats] has class [hidden] *)
  saveDisabled : bool;                      (* [#btn-save-route] is disabled *)
  loadingHidden : bool;                     (* [#map-loading] has class [hidden] *)
  toasts : list Toast;
  requests : list Request;                  (* requests sent to the routing service *)
  pending : list Pending
}.

(** The constructor's route. *)
Definition emptyRoute (mode : string) : Route := mkRoute [] 0 0 None mode.

Definition set_route (s : State) (r : Route) : State :=
  mkState r (map s) (shown_distance s) (shown_duration s) (statsHidden s)
    (saveDisabled s) (loadingHidden s) (toasts s) (requests s) (pending s).

Definition set_map (s : State) (m : MapManager.State) : State :=
  mkState (currentRoute s) m (shown_distance s) (shown_duration s)
    (statsHidden s) (saveDisabled s) (loadingHidden s) (toasts s) (requests s)
    (pending s).

Definition set_loadingHidden (s : State) (b : bool) : State :=
  mkState (currentRoute s) (map s) (shown_distance s) (shown_duration s)
    (statsHidden s) (saveDisabled s) b (toasts s) (requests s) (pending s).

Definition set_pending (s : State) (rs : list Request) (ps : list Pending)
    : State :=
  mkState (currentRoute s) (map s) (shown_distance s) (shown_duration s)
    (statsHidden s) (saveDisabled s) (loadingHidden s) (toasts s) rs ps.

Definition showToast (s : State) (message type : string) : State :=
  mkState (currentRoute s) (map s) (shown_distance s) (shown_duration s)
    (statsHidden s) (saveDisabled s) (loadingHidden s)
    (toasts s ++ [(message, type)]) (requests s) (pending s).

(** [renderWaypoints]: the waypoint list is re-rendered from the route; of
    the page it leaves the visibility of the stats and the save button. *)
Definition renderWaypoints (s : State) : State :=
  let ready := (2 <=? List.length (waypoints (currentRoute s)))%nat in
  mkState (currentRoute s) (map s) (shown_distance s) (shown_duration s)
    (negb ready) (negb ready) (loadingHidden s) (toasts s) (requests s)
    (pending s).

Definition updateRouteStats (s : State) : State :=
  mkState (currentRoute s) (map s)
    (distance (currentRoute s)) (duration (currentRoute s))
    (statsHidden s) (saveDisabled s) (loadingHidden s) (toasts s) (requests s)
    (pending s).

Definition marker_input (wp : Waypoint) : LatLng * string :=
  (coordinates wp, name wp).

(** [updateRouteOnMap] up to its [await]. *)
Definition updateRouteOnMap (s : State) : State :=
  let wps := waypoints (currentRoute s) in
  let s := set_map s (MapManager.updateWaypointMarkers (map s)
                        (List.map marker_input wps)) in
  if (List.length wps <? 2)%nat then
    let s := set_map s (MapManager.clearRoute (map s)) in
    let r := currentRoute s in
    let s := set_route s (mkRoute (waypoints r) 0 (duration r) (geometry r)
                            (transportMode r)) in
    let r := currentRoute s in
    let s := set_route s (mkRoute (waypoints r) (distance r) 0 (geometry r)
                            (transportMode r)) in
    updateRouteStats s
  else
    let s := set_loadingHidden s false in
    let coords := List.map coordinates wps in
    let mode := transportMode (currentRoute s) in
    match beginRoute (Some coords) mode with
    | Ok request =>
        set_pending s (requests s ++ [request])
          (pending s ++ [mkPending coords mode])
    | Throw _ =>
        let s := showToast s "Error al calcular la ruta" "error" in
        let s := set_map s (MapManager.drawPolyline (map s) coords) in
        set_loadingHidden s true
    end.

(** The rest of [updateRouteOnMap], run when the request of the [k]-th
    suspended call settles with outcome [o]. *)
Definition completeRoute (s : State) (k : nat) (o : FetchOutcome) : State :=
  match nth_error (pending s) k with
  | None => s
  | Some p =>
      let s := set_pending s (requests s) (snd (splice1 (pending s) k)) in
      let routeData := resumeRoute (pend_coordinates p) (pend_mode p) o in
      let r := currentRoute s in
      let s := set_route s
                 (mkRoute (waypoints r) (Routing.distance routeData)
                    (Routing.duration routeData) (Routing.geometry routeData)
                    (transportMode r)) in
      let s :=
        match Routing.geometry routeData with
        | Some g => set_map s (MapManager.drawRoute (map s) g)
        | None => set_map s (MapManager.drawPolyline (map s) (pend_coordinates p))
        end in
      let s := updateRouteStats s in
      set_loadingHidden s true
  end.

Section Catalog.

(** The static catalog of [data/pois.js]. *)
Variable pois : list Poi.
Variable categories : list Category.

Definition addWaypointFromPOI (s : State) (poiId : string) : State :=
  match getPoiById pois poiId with
  | None => s
  | Some poi =>
      if existsb (fun wp => String.eqb (id wp) poiId) (waypoints (currentRoute s))
      then showToast s "Este punto ya está en la ruta" "info"
      else
        let category := getCategoryById categories (poi_category poi) in
        let label :=
          match category with
          | Some c => str_or (cat_name c) (poi_category poi)
          | None => poi_category poi
          end in
        let r := currentRoute s in
        let s := set_route s
                   (mkRoute
                      (waypoints r ++
                       [mkWaypoint (poi_id poi) (poi_name poi)
                          (poi_coordinates poi) label])
                      (distance r) (duration r) (geometry r) (transportMode r)) in
        let s := set_map s (MapManager.closePopup (map s)) in
        let s := renderWaypoints s in
        let s := updateRouteOnMap s in
        showToast s (poi_name poi ++ " añadido a la ruta") "success"
  end.

End Catalog.

Definition removeWaypoint (s : State) (index : nat) : State :=
  let r := currentRoute s in
  let s := set_route s (mkRoute (snd (splice1 (waypoints r) index))
                          (distance r) (duration r) (geometry r)
                          (transportMode r)) in
  let s := renderWaypoints s in
  updateRouteOnMap s.

Definition setTransportMode (s : State) (mode : string) : State :=
  let r := currentRoute s in
  let s := set_route s (mkRoute (waypoints r) (distance r) (duration r)
                          (geometry r) mode) in
  if (2 <=? List.length (waypoints (currentRoute s)))%nat
  then updateRouteOnMap s
  else s.

Definition clearRoute (s : State) : State :=
  let s := set_route s (mkRoute [] 0 0 None (transportMode (currentRoute s))) in
  let s := set_map s (MapManager.clearRouteElements (map s)) in
  let s := renderWaypoints s in
  let s := updateRouteStats s in
  showToast s "Ruta limpiada" "info".

(** What can happen to the route: the user's actions, and the settling of
    a request in flight. *)
Inductive Event : Type :=
| AddWaypoint (poiId : string)
| RemoveWaypoint (index : nat)
| SetTransportMode (mode : string)
| ClearRoute
| Settle (k : nat) (o : FetchOutcome).

Definition step (pois : list Poi) (categories : list Category) (s : State)
    (e : Event) : State :=
  match e with
  | AddWaypoint poiId => addWaypointFromPOI pois categories s poiId
  | RemoveWaypoint index => removeWaypoint s index
  | SetTransportMode mode => setTransportMode s mode
  | ClearRoute => clearRoute s
  | Settle k o => completeRoute s k o
  end.

Definition run (pois : list Poi) (categories : list Category) (s : State)
    (es : list Event) : State :=
  fold_left (step pois categories) es s.

(** The state the constructor builds. *)
Definition initial : State :=
  mkState (emptyRoute "driving") (MapManager.mkState None [] false) 0 0 true
    true true [] [] [].

End App.

(* ================================================================== *)
(** * Notions of the specification *)
(* ================================================================== *)

Module Spec.

Import Js Routing.

(** The consecutive pairs of a sequence. *)
Fixpoint consecutive_pairs {A : Type} (l : list A) : list (A * A) :=
  match l with
  | [] => []
  | a :: t =>
      match t with
      | [] => []
      | b :: _ => (a, b) :: consecutive_pairs t
      end
  end.

(** The sum of the haversine distances (km) between consecutive waypoints. *)
Definition haversine_sum (waypoints : list LatLng) : R :=
  fold_right Rplus 0
    (map (fun pq => haversineDistance (fst pq) (snd pq))
       (consecutive_pairs waypoints)).

(** Fewer than two coordinates, [null] and [undefined] included. *)
Definition fewer_than_two (waypoints : option (list LatLng)) : Prop :=
  match waypoints with
  | None => True
  | Some wps => (List.length wps < 2)%nat
  end.

(** The sequence without its element at position [k]. *)
Definition remove_at {A : Type} (k : nat) (l : list A) : list A :=
  firstn k l ++ skipn (S k) l.

Section Greedy.

Context {W : Type} (coords : W -> LatLng).

Definition dist (a b : W) : R := haversineDistance (coords a) (coords b).

(** [w], at position [k] of [remaining], is the waypoint nearest to
    [current], and the first such in the order of [remaining]. *)
Definition nearest_first (current : W) (remaining : list W) (k : nat) (w : W)
    : Prop :=
  nth_error remaining k = Some w /\
  forall j v, nth_error remaining j = Some v ->
    dist current w <= dist current v /\
    ((j < k)%nat -> dist current w < dist current v).

(** [out] is the greedy nearest-neighbor order of [remaining] starting
    from the last placed waypoint [current]. *)
Inductive greedy_from : W -> list W -> list W -> Prop :=
| greedy_done current : greedy_from current [] []
| greedy_next current remaining k w out :
    nearest_first current remaining k w ->
    greedy_from w (remove_at k remaining) out ->
    greedy_from current remaining (w :: out).

(** What the scan of [remaining] knows after the prefix [pre]: nothing yet,
    or the nearest waypoint of [pre] and its distance. *)
Definition scanned (current : W) (pre : list W) (nearestIndex : nat)
    (nearestDistance : option R) : Prop :=
  match nearestDistance with
  | None => pre = []
  | Some d =>
      exists w, nearest_first current pre nearestIndex w /\ d = dist current w
  end.

End Greedy.

(** Identifiers of the waypoints of the route, in order. *)
Definition route_ids (s : App.State) : list string :=
  map App.id (App.waypoints (App.currentRoute s)).

(** The numbers the stats panel shows. *)
Definition shown (s : App.State) : R * R :=
  (App.shown_distance s, App.shown_duration s).

(** Distance and duration of a computed route. *)
Definition stats_of (r : RouteData) : R * R := (distance r, duration r).

End Spec.

(* ================================================================== *)
(** * Sample data *)
(* ================================================================== *)

Module Sample.

Import Routing Pois.

Definition A : App.Waypoint := App.mkWaypoint "A" "A" (0, 0) "nature".
Definition B : App.Waypoint := App.mkWaypoint "B" "B" (0, 1) "nature".
Definition C : App.Waypoint := App.mkWaypoint "C" "C" (0, 3) "nature".

(** Two entries of the catalog of [data/pois.js]. *)
Definition gullfoss : Poi :=
  mkPoi "gullfoss" "Gullfoss" "waterfall" (64.3271, -20.1199) EmptyString.
Definition geysir : Poi :=
  mkPoi "geysir" "Geysir" "nature" (64.3104, -20.3024) EmptyString.

Definition pois : list Poi := [gullfoss; geysir].

Definition categories : list Category :=
  [mkCategory "waterfall" "Cascadas" EmptyString "#3b82f6";
   mkCategory "nature" "Naturaleza" EmptyString "#22c55e"].

Definition line : Geometry :=
  mkGeometry "LineString" [(-20.1199, 64.3271); (-20.3024, 64.3104)].

(** A response of the routing service with one route and no legs. *)
Definition response (distance duration : R) : FetchOutcome :=
  Response true 200
    (Some (mkOsrmPayload "Ok" EmptyString
             [mkOsrmRoute distance duration (Some line) []] [])).

(** The two POIs added to the empty route: one request is in flight. *)
Definition two_stops : App.State :=
  App.run pois categories App.initial
    [App.AddWaypoint "gullfoss"; App.AddWaypoint "geysir"].

(** The same route once the service has answered. *)
Definition computed : App.State :=
  App.completeRoute two_stops 0 (response 1000 60).

End Sample.

(* ================================================================== *)
(** * Keyed collections *)
(* ================================================================== *)

Module JsData.

(** Keyed collections that keep insertion order: the own properties of an
    object, the entries of a [Map].  [assoc_set] is [obj[k] = v] and
    [map.set(k, v)]: an existing key keeps its place. *)
Fixpoint assoc_set {V : Type} (m : list (string * V)) (k : string) (v : V)
    : list (string * V) :=
  match m with
  | [] => [(k, v)]
  | (k', v') :: t =>
      if String.eqb k' k then (k', v) :: t else (k', v') :: assoc_set t k v
  end.

(** [obj[k]] and [map.get(k)]: [None] is [undefined]. *)
Fixpoint assoc_get {V : Type} (m : list (string * V)) (k : string) : option V :=
  match m with
  | [] => None
  | (k', v') :: t => if String.eqb k' k then Some v' else assoc_get t k
  end.

(** [delete obj[k]] *)
Fixpoint assoc_delete {V : Type} (m : list (string * V)) (k : string)
    : list (string * V) :=
  match m with
  | [] => []
  | (k', v') :: t =>
      if String.eqb k' k then assoc_delete t k else (k', v') :: assoc_delete t k
  end.

(** A [Set] of strings, in insertion order. *)
Definition set_has (s : list string) (x : string) : bool :=
  existsb (String.eqb x) s.

Definition set_add (s : list string) (x : string) : list string :=
  if set_has s x then s else s ++ [x].

Definition set_delete (s : list string) (x : string) : list string :=
  filter (fun y => negb (String.eqb x y)) s.

End JsData.

(* ================================================================== *)
(** * data/pois.js: queries over the catalog *)
(* ================================================================== *)

Module PoiQueries.

Import JsData Pois.

Section Catalog.

Variable pois : list Poi.
Variable categories : list Category.

(** [categoryId] is the empty string where the source is passed a falsy
    value. *)
Definition getPoisByCategory (categoryId : string) : list Poi :=
  if (String.eqb categoryId EmptyString || String.eqb categoryId "all")%bool
  then pois
  else filter (fun poi => String.eqb (poi_category poi) categoryId) pois.

(** The [counts] object: one property per category, then [all] (category
    identifiers being ordinary property names). *)
Definition getPoiCountByCategory : list (string * nat) :=
  let counts :=
    fold_left
      (fun counts cat =>
         assoc_set counts (cat_id cat)
           (List.length
              (filter (fun poi => String.eqb (poi_category poi) (cat_id cat)) pois)))
      categories [] in
  assoc_set counts "all" (List.length pois).

End Catalog.

End PoiQueries.

(* ================================================================== *)
(** * components/Map.js: the POI markers *)
(* ================================================================== *)

Module PoiLayer.

Import JsData Pois.

(** An entry of [this.markers]; [visible] tells whether the marker is on
    the map. *)
Record MarkerData : Type := mkMarkerData {
  md_poi : Poi;
  md_visible : bool
}.

(** [this.markers], keyed by POI identifier. *)
Definition Markers : Type := list (string * MarkerData).

Definition addPOIMarker (markers : Markers) (poi : Poi) : Markers :=
  assoc_set markers (poi_id poi) (mkMarkerData poi true).

Definition addPOIMarkers (markers : Markers) (pois : list Poi) : Markers :=
  fold_left addPOIMarker pois markers.

(** The body of the [forEach] of [filterByCategory] and of
    [showAllMarkers]: show or hide one marker. *)
Definition show_when (shouldShow : bool) (data : MarkerData) : MarkerData :=
  if (shouldShow && negb (md_visible data))%bool then mkMarkerData (md_poi data) true
  else if (negb shouldShow && md_visible data)%bool then mkMarkerData (md_poi data) false
  else data.

Definition filterByCategory (markers : Markers) (categoryId : string) : Markers :=
  map (fun entry =>
         let data := snd entry in
         let shouldShow :=
           (String.eqb categoryId EmptyString || String.eqb categoryId "all" ||
            String.eqb (poi_category (md_poi data)) categoryId)%bool in
         (fst entry, show_when shouldShow data))
      markers.

Definition showAllMarkers (markers : Markers) : Markers :=
  map (fun entry =>
         let data := snd entry in
         (fst entry,
          if negb (md_visible data) then mkMarkerData (md_poi data) true else data))
      markers.

(** The POIs of the entries whose marker is on the map. *)
Definition visible_pois (markers : Markers) : list Poi :=
  map (fun entry => md_poi (snd entry))
    (filter (fun entry => md_visible (snd entry)) markers).

End PoiLayer.

(* ================================================================== *)
(** * app.js: category filters *)
(* ================================================================== *)

Module Explore.

Import JsData Pois PoiLayer.

(** [this.activeFilters], the markers of the map, the POIs rendered in the
    list and the number in [#poi-count]. *)
Record State : Type := mkState {
  activeFilters : list string;
  markers : Markers;
  poiList : list Poi;
  poiCount : nat
}.

Section Catalog.

Variable pois : list Poi.

Definition applyFilters (s : State) : State :=
  let all := set_has (activeFilters s) "all" in
  let selected :=
    filter (fun poi => set_has (activeFilters s) (poi_category poi)) pois in
  let markers' :=
    if all then showAllMarkers (markers s)
    else fold_left filterByCategory (activeFilters s) (markers s) in
  let list' := if all then pois else selected in
  let visibleCount := if all then List.length pois else List.length selected in
  mkState (activeFilters s) markers' list' visibleCount.

Definition toggleCategoryFilter (s : State) (categoryId : string) : State :=
  let filters :=
    if String.eqb categoryId "all" then set_add [] "all"
    else
      let f := set_delete (activeFilters s) "all" in
      let f := if set_has f categoryId then set_delete f categoryId
               else set_add f categoryId in
      if (List.length f =? 0)%nat then set_add f "all" else f in
  applyFilters (mkState filters (markers s) (poiList s) (poiCount s)).

(** The state after [init]: every POI has a marker, every POI is listed. *)
Definition initial : State :=
  mkState ["all"%string] (addPOIMarkers [] pois) pois (List.length pois).

End Catalog.

End Explore.

(* ================================================================== *)
(** * services/database.js and services/export.js: route records *)
(* ================================================================== *)

Module Persistence.

Import Js JsData.

(** JSON values.  A JSON text is held as the value it parses to:
    [JSON.parse(JSON.stringify(v))] is [v] for these values. *)
#[warnings="-register-all"] Inductive Json : Type :=
| JNull
| JBool (b : bool)
| JNum (x : R)
| JStr (s : string)
| JArr (items : list Json)
| JObj (fields : list (string * Json)).

(** [value.key] for a value that is not [null]: [None] is [undefined]. *)
Definition prop (value : Json) (key : string) : option Json :=
  match value with
  | JObj fields => assoc_get fields key
  | _ => None
  end.

Definition truthy (v : Json) : bool :=
  match v with
  | JNull => false
  | JBool b => b
  | JNum x => if Req_dec_T x 0 then false else true
  | JStr s => negb (String.eqb s EmptyString)
  | JArr _ => true
  | JObj _ => true
  end.

(** [v || d] *)
Definition or_default (v : option Json) (d : Json) : Json :=
  match v with
  | Some x => if truthy x then x else d
  | None => d
  end.

(** The object [RouteService.create] hands to [db.routes.add].  The two
    timestamps are the two [new Date().toISOString()]. *)
Definition create (routeData : Json) (createdAt updatedAt : string) : Json :=
  JObj [("name"%string, or_default (prop routeData "name") (JStr "Ruta sin nombre"));
        ("description"%string, or_default (prop routeData "description") (JStr EmptyString));
        ("waypoints"%string, or_default (prop routeData "waypoints") (JArr []));
        ("distance"%string, or_default (prop routeData "distance") (JNum 0));
        ("duration"%string, or_default (prop routeData "duration") (JNum 0));
        ("transportMode"%string,
           or_default (prop routeData "transportMode") (JStr "driving"));
        ("routeGeometry"%string, or_default (prop routeData "routeGeometry") JNull);
        ("createdAt"%string, JStr createdAt);
        ("updatedAt"%string, JStr updatedAt)].

(** [RouteService.exportAsJson]: [route] is what [getById] found. *)
Definition exportAsJson (route : option Json) : Result Json :=
  match route with
  | Some r => if truthy r then Ok r else Throw (JsError "Route not found")
  | None => Throw (JsError "Route not found")
  end.

(** [RouteService.importFromJson] on the parsed text: [delete routeData.id]
    throws on [null]. *)
Definition importFromJson (parsed : Json) (createdAt updatedAt : string)
    : Result Json :=
  match parsed with
  | JNull => Throw TypeError
  | JObj fields => Ok (create (JObj (assoc_delete fields "id")) createdAt updatedAt)
  | other => Ok (create other createdAt updatedAt)
  end.

(** A property of an object literal: left out by [JSON.stringify] when its
    value is [undefined]. *)
Definition field (key : string) (v : option Json) : list (string * Json) :=
  match v with
  | Some x => [(key, x)]
  | None => []
  end.

(** The [exportData] of [exportToJSON], as the downloaded text holds it. *)
Definition exportToJSON (route : Json) (exportDate : string) : Json :=
  JObj [("exportDate"%string, JStr exportDate);
        ("source"%string, JStr "Iceland Geoportal");
        ("route"%string,
           JObj (field "name" (prop route "name") ++
                 field "description" (prop route "description") ++
                 field "waypoints" (prop route "waypoints") ++
                 field "distance" (prop route "distance") ++
                 field "duration" (prop route "duration") ++
                 field "transportMode" (prop route "transportMode") ++
                 field "createdAt" (prop route "createdAt")))].

End Persistence.

(* ================================================================== *)
(** * Notions for the remaining code *)
(* ================================================================== *)

Module Notions.

Import Js JsData Routing Pois.

(** The POI belongs to category [c]. *)
Definition in_category (c : string) (poi : Poi) : bool :=
  String.eqb (poi_category poi) c.

(** [counts[c]] read as a number: 0 where the property is missing. *)
Definition count_of (counts : list (string * nat)) (c : string) : nat :=
  match assoc_get counts c with Some n => n | None => O end.

(** The POIs that have a marker, in the order of [this.markers]. *)
Definition marker_pois (markers : PoiLayer.Markers) : list Poi :=
  map (fun entry => PoiLayer.md_poi (snd entry)) markers.

(** The waypoint markers a waypoint list calls for: numbered from
    [index + 1], titled with the waypoint's name. *)
Fixpoint expected_markers (wps : list (LatLng * string)) (index : nat)
    : list MapManager.Marker :=
  match wps with
  | [] => []
  | (c, n) :: t =>
      MapManager.mkMarker c (index + 1)
        (str_or n ("Punto " ++ nat_to_string (index + 1)))
      :: expected_markers t (S index)
  end.

(** The waypoint [addWaypointFromPOI] makes of a POI. *)
Definition waypoint_of (categories : list Category) (poi : Poi) : App.Waypoint :=
  App.mkWaypoint (poi_id poi) (poi_name poi) (poi_coordinates poi)
    (match getCategoryById categories (poi_category poi) with
     | Some c => str_or (cat_name c) (poi_category poi)
     | None => poi_category poi
     end).

(** The toast of the [catch] block of [updateRouteOnMap]. *)
Definition error_toast : App.Toast :=
  ("Error al calcular la ruta"%string, "error"%string).

(** The map's waypoint markers are those of the route's waypoints. *)
Definition mirrored (s : App.State) : Prop :=
  MapManager.waypointMarkers (App.map s) =
    expected_markers
      (List.map App.marker_input (App.waypoints (App.currentRoute s))) 0.

(** Every request sent and every suspended call carries two coordinates
    or more, and the error toast was never shown. *)
Definition gated (s : App.State) : Prop :=
  Forall (fun r => (2 <= List.length (req_coordinates r))%nat) (App.requests s) /\
  Forall (fun p => (2 <= List.length (App.pend_coordinates p))%nat)
    (App.pending s) /\
  ~ In error_toast (App.toasts s).

(** Every waypoint of the route was made of a catalog POI. *)
Definition from_catalog (pois : list Poi) (categories : list Category)
    (s : App.State) : Prop :=
  Forall (fun wp => exists poi, In poi pois /\ wp = waypoint_of categories poi)
    (App.waypoints (App.currentRoute s)).

(** The requests in flight settle in the order they were sent. *)
Definition settle_in_order (s : App.State) (os : list FetchOutcome) : App.State :=
  fold_left (fun s o => App.completeRoute s 0 o) os s.

(** A stored route: the object handed to [db.routes.add], with the key the
    table generated as its [id] property. *)
Definition with_id (route id : Persistence.Json) : Persistence.Json :=
  match route with
  | Persistence.JObj fields => Persistence.JObj (assoc_set fields "id" id)
  | other => other
  end.

(** Sample states of the category filters over the sample catalog. *)
Definition two_filters : Explore.State :=
  Explore.toggleCategoryFilter Sample.pois
    (Explore.toggleCategoryFilter Sample.pois (Explore.initial Sample.pois)
       "waterfall")
    "nature".

End Notions.

(* ================================================================== *)
(** * Binary64 numbers *)
(* ================================================================== *)

(** A JavaScript number is an IEEE 754 binary64 value.  [float] is that
    format: its [+], [-], [*] and [/] round to nearest, ties to even, as
    the language prescribes, with signed zeros, infinities and one [NaN];
    [Prim2SF] gives the sign, mantissa and exponent of a [float]. *)

Module Ieee.

(** The sign bit is clear, or the value is [NaN]. *)
Definition SFnot_negative (x : spec_float) : bool :=
  match x with
  | S754_zero s | S754_infinity s | S754_finite s _ _ => negb s
  | S754_nan => true
  end.

(** [Object.is(x, -0) || x < 0] is false: [x] is [+0], a positive number,
    [Infinity] or [NaN]. *)
Definition not_negative (x : float) : bool := SFnot_negative (Prim2SF x).

(** Neither [NaN] nor an infinity. *)
Definition SFfinite (x : spec_float) : bool :=
  match x with
  | S754_zero _ | S754_finite _ _ _ => true
  | _ => false
  end.

End Ieee.

(* ================================================================== *)
(** * services/routing.js in binary64 arithmetic *)
(* ================================================================== *)

Module Binary64.

Import Js.
Local Open Scope float_scope.

(** What the language leaves to the engine: [Math.sin], [Math.cos] and
    [Math.atan2] return approximations of the engine's choosing.  The code
    below is read for an arbitrary engine; a property that needs something
    of the engine says so as a hypothesis. *)
Class MathLibrary : Type := {
  Math_sin : float -> float;
  Math_cos : float -> float;
  Math_atan2 : float -> float -> float
}.

Definition Math_PI : float := 3.141592653589793.

(** [Math.sqrt]: the correctly rounded square root of IEEE 754, [NaN]
    below zero. *)
Definition Math_sqrt (x : float) : float := PrimFloat.sqrt x.

(** [a || b] on numbers: [b] when [a] is falsy, that is [0], [-0] or
    [NaN]. *)
Definition num_or (a b : float) : float :=
  if is_nan a || (a =? 0) then b else a.

(** A coordinate is the two-element array [[lat, lng]]. *)
Definition LatLng : Type := (float * float)%type.

(** Data model invariant of a coordinate (decimal degrees). *)
Definition valid_coordinate (p : LatLng) : bool :=
  (-90 <=? fst p) && (fst p <=? 90) && (-180 <=? snd p) && (snd p <=? 180).

Record TransportMode : Type := mkTransportMode {
  id : string;
  name : string;
  profile : string;
  icon : string;
  avgSpeed : float                (* km/h *)
}.

Definition driving : TransportMode :=
  mkTransportMode "driving" "En coche" "driving" "car" 80.
Definition cycling : TransportMode :=
  mkTransportMode "cycling" "En bicicleta" "cycling" "bicycle" 20.
Definition walking : TransportMode :=
  mkTransportMode "walking" "A pie" "foot" "walking" 5.

Definition TransportModes (mode : string) : option TransportMode :=
  if String.eqb mode "driving" then Some driving
  else if String.eqb mode "cycling" then Some cycling
  else if String.eqb mode "walking" then Some walking
  else None.

Definition toRad (deg : float) : float := deg * (Math_PI / 180).

Record Geometry : Type := mkGeometry {
  gtype : string;
  coordinates : list (float * float)     (* [lng, lat] *)
}.

Record Step : Type := mkStep {
  step_distance : float;
  step_duration : float;
  instruction : string;
  step_name : string
}.

Record Leg : Type := mkLeg {
  leg_distance : float;
  leg_duration : float;
  steps : list Step
}.

Record RoutePoint : Type := mkRoutePoint {
  point_name : string;
  location : LatLng
}.

Record RouteData : Type := mkRouteData {
  distance : float;               (* meters *)
  duration : float;               (* seconds *)
  geometry : option Geometry;
  legs : list Leg;
  waypoints : list RoutePoint;
  isFallback : bool
}.

Record Request : Type := mkRequest {
  req_profile : string;
  req_coordinates : list (float * float)  (* [lng, lat] *)
}.

Record OsrmStep : Type := mkOsrmStep {
  os_distance : float;
  os_duration : float;
  os_maneuver_type : string;
  os_name : string
}.

Record OsrmLeg : Type := mkOsrmLeg {
  ol_distance : float;
  ol_duration : float;
  ol_steps : list OsrmStep
}.

Record OsrmRoute : Type := mkOsrmRoute {
  or_distance : float;
  or_duration : float;
  or_geometry : option Geometry;
  or_legs : list OsrmLeg
}.

Record OsrmWaypoint : Type := mkOsrmWaypoint {
  ow_name : string;
  ow_location : float * float             (* [lng, lat] *)
}.

Record OsrmPayload : Type := mkOsrmPayload {
  code : string;
  message : string;
  routes : list OsrmRoute;
  payload_waypoints : list OsrmWaypoint
}.

(** How [await fetch(url)] followed by [await response.json()] ends. *)
Inductive FetchOutcome : Type :=
| NetworkError                             (* [fetch] rejects *)
| Response (ok : bool) (status : nat) (body : option OsrmPayload).
                                           (* [None]: [response.json()] rejects *)

(** The service failed: network error, non-OK HTTP status, or a payload
    whose [code] is not ["Ok"]. *)
Definition service_failure (o : FetchOutcome) : Prop :=
  match o with
  | NetworkError => True
  | Response false _ _ => True
  | Response true _ (Some data) => code data <> "Ok"%string
  | Response true _ None => False
  end.

(** The body of the [try] block from the point where [fetch] settles. *)
Definition handleResponse (o : FetchOutcome) : Result RouteData :=
  match o with
  | NetworkError => Throw TypeError
  | Response ok status body =>
      if negb ok then
        Throw (JsError ("Error del servidor de routing: " ++ nat_to_string status))
      else
        match body with
        | None => Throw SyntaxError
        | Some data =>
            if negb (String.eqb (code data) "Ok") then
              Throw (JsError (str_or (message data) "Error al calcular la ruta"))
            else
              match routes data with
              | [] => Throw TypeError           (* [data.routes[0]] is [undefined] *)
              | route :: _ =>
                  Ok (mkRouteData
                        (or_distance route)
                        (or_duration route)
                        (or_geometry route)
                        (map (fun leg =>
                                mkLeg (ol_distance leg) (ol_duration leg)
                                  (map (fun step =>
                                          mkStep (os_distance step) (os_duration step)
                                            (os_maneuver_type step)
                                            (str_or (os_name step) "Sin nombre"))
                                       (ol_steps leg)))
                             (or_legs route))
                        (map (fun wp =>
                                mkRoutePoint (ow_name wp)
                                  (snd (ow_location wp), fst (ow_location wp)))
                             (payload_waypoints data))
                        false)
              end
        end
  end.

Definition buildRequest (waypoints : list LatLng) (mode : string) : Request :=
  let profile :=
    match TransportModes mode with
    | Some m => str_or (profile m) "driving"
    | None => "driving"%string
    end in
  mkRequest profile (map (fun wp => (snd wp, fst wp)) waypoints).

(** [calculateRoute] up to [await fetch(url)]: the guard, and the request. *)
Definition beginRoute (waypoints : option (list LatLng)) (mode : string)
    : Result Request :=
  match waypoints with
  | None => Throw Routing.insufficient_waypoints
  | Some wps =>
      if (List.length wps <? 2)%nat then Throw Routing.insufficient_waypoints
      else Ok (buildRequest wps mode)
  end.

(** [waypoints.map((wp, i) => ({name: `Punto ${i + 1}`, location: wp}))] *)
Fixpoint name_points (waypoints : list LatLng) (i : nat) : list RoutePoint :=
  match waypoints with
  | [] => []
  | wp :: t =>
      mkRoutePoint ("Punto " ++ nat_to_string (i + 1)) wp :: name_points t (S i)
  end.

Section Engine.

Context {M : MathLibrary}.

(** The haversine term [a] of [haversineDistance]. *)
Definition haversine_a (point1 point2 : LatLng) : float :=
  let dLat := toRad (fst point2 - fst point1) in
  let dLon := toRad (snd point2 - snd point1) in
  Math_sin (dLat / 2) * Math_sin (dLat / 2) +
  Math_cos (toRad (fst point1)) * Math_cos (toRad (fst point2)) *
  Math_sin (dLon / 2) * Math_sin (dLon / 2).

(** Distance in kilometers. *)
Definition haversineDistance (point1 point2 : LatLng) : float :=
  let R_earth := 6371 in
  let a := haversine_a point1 point2 in
  let c := 2 * Math_atan2 (Math_sqrt a) (Math_sqrt (1 - a)) in
  R_earth * c.

(** The loop
    [for (let i = 0; i < waypoints.length - 1; i++) totalDistance += ...].
    [fuel] bounds the number of iterations; the guard is the source's. *)
Fixpoint fallback_loop (fuel : nat) (waypoints : list LatLng) (i : nat)
    (totalDistance : float) : float :=
  match fuel with
  | O => totalDistance
  | S fuel' =>
      if (Z.of_nat i <? Z.of_nat (List.length waypoints) - 1)%Z then
        fallback_loop fuel' waypoints (S i)
          (totalDistance +
           haversineDistance (nth i waypoints (0, 0)) (nth (S i) waypoints (0, 0)))
      else totalDistance
  end.

Definition calculateFallbackRoute (waypoints : list LatLng) (mode : string)
    : RouteData :=
  let avgSpeed :=
    match TransportModes mode with
    | Some m => num_or (avgSpeed m) 80
    | None => 80
    end in
  let totalDistance := fallback_loop (List.length waypoints) waypoints 0 0 in
  let roadDistance := totalDistance * 1.3 in
  let duration := (roadDistance / avgSpeed) * 3600 in
  let geometry :=
    mkGeometry "LineString" (map (fun wp => (snd wp, fst wp)) waypoints) in
  mkRouteData (roadDistance * 1000) duration (Some geometry) []
    (name_points waypoints 0) true.

(** [try { ... } catch (error) { return calculateFallbackRoute(waypoints, mode) }]
    once the request has settled with outcome [o]. *)
Definition resumeRoute (waypoints : list LatLng) (mode : string)
    (o : FetchOutcome) : RouteData :=
  match handleResponse o with
  | Ok routeData => routeData
  | Throw _ => calculateFallbackRoute waypoints mode
  end.

(** [calculateRoute(waypoints, mode)]: the requests issued and what the
    promise settles to. *)
Definition calculateRoute (fetch : Request -> FetchOutcome)
    (waypoints : option (list LatLng)) (mode : string)
    : list Request * Result RouteData :=
  match beginRoute waypoints mode with
  | Throw e => ([], Throw e)
  | Ok request =>
      ([request],
       Ok (resumeRoute (match waypoints with Some wps => wps | None => [] end)
             mode (fetch request)))
  end.

End Engine.

End Binary64.

(* ================================================================== *)
(** * Library values for the examples *)
(* ================================================================== *)

Module Tables.

Import Binary64.
Local Open Scope float_scope.

(** [f x] for the arguments a table lists; no value ([NaN]) elsewhere. *)
Definition lookup (table : list (float * float)) (x : float) : float :=
  match find (fun entry => PrimFloat.Leibniz.eqb (fst entry) x) table with
  | Some entry => snd entry
  | None => nan
  end.

Definition lookup2 (table : list (float * float * float)) (y x : float)
    : float :=
  match find (fun entry => PrimFloat.Leibniz.eqb (fst (fst entry)) y &&
                           PrimFloat.Leibniz.eqb (snd (fst entry)) x) table with
  | Some entry => snd entry
  | None => nan
  end.

(** Sines, cosines and arc tangents at the arguments the examples use: the
    doubles nearest to the exact values, which are what the routines of
    fdlibm (the ones V8 runs) and of glibc return there.  [sin 0], [cos 0],
    [atan2 0 1] and [atan2 1 NaN] are the values the language prescribes. *)
Definition sines : list (float * float) :=
  [ (0, 0);
    (0x1.1df46a2529d39p-3, 0x1.1d06c968d9e19p-3);     (* 8 degrees *)
    (-0x1.1df46a2529d39p-3, -0x1.1d06c968d9e19p-3);
    (0x1.921fb54442d18p+0, 1);                        (* 90 degrees *)
    (-0x1.921fb54442d18p+0, -1);
    (0x1.b8e9e30d03a39p-7, 0x1.b8e67b1cfa994p-7);
    (-0x1.b8e9e30d03a39p-7, -0x1.b8e67b1cfa994p-7);
    (0x1.135fd9ee07414p-5, 0x1.1352935e79ab5p-5);
    (-0x1.135fd9ee07414p-5, -0x1.1352935e79ab5p-5);
    (0x1.31a0e0dbf1bbfp-13, 0x1.31a0e0c9cb30bp-13);
    (-0x1.31a0e0dbf1bbfp-13, -0x1.31a0e0c9cb30bp-13);
    (0x1.a17e72030ef62p-10, 0x1.a17e66720d848p-10);
    (-0x1.a17e72030ef62p-10, -0x1.a17e66720d848p-10) ].

Definition cosines : list (float * float) :=
  [ (0, 1);
    (0x1.1df46a2529d39p-3, 0x1.fb046a930947ap-1);     (* 8 degrees *)
    (-0x1.1df46a2529d39p-3, 0x1.fb046a930947ap-1);
    (0x1.1e9c1936c2b0fp+0, 0x1.be89232ace91dp-2);     (* 64.1466 degrees *)
    (0x1.257fc0c2f6bf8p+0, 0x1.a593f8d16f374p-2);     (* 65.6885 degrees *)
    (0x1.1f6a8ecd20154p+0, 0x1.bba163cc7a91ap-2);     (* 64.3271 degrees *)
    (0x1.1f5774bf12562p+0, 0x1.bbe63fd688b5dp-2) ].   (* 64.3104 degrees *)

Definition arctangents : list (float * float * float) :=
  [ (0, 1, 0);
    (1, nan, nan);                (* a [NaN] argument gives [NaN] *)
    (0x1.40fce5d50d35ep-6, 0x1.ffe6d7ce415fap-1, 0x1.410227c8e4cc9p-6);
    (0x1.71d52205c9f11p-11, 0x1.fffff7a6df788p-1, 0x1.71d524085bd05p-11) ].

Definition library : MathLibrary := {|
  Math_sin := lookup sines;
  Math_cos := lookup cosines;
  Math_atan2 := lookup2 arctangents
|}.

Definition reykjavik : LatLng := (64.1466, -21.9426).
Definition akureyri : LatLng := (65.6885, -18.0906).
Definition gullfoss : LatLng := (64.3271, -20.1199).
Definition geysir : LatLng := (64.3104, -20.3024).

End Tables.

(* ================================================================== *)
(** * Notions for the binary64 reading *)
(* ================================================================== *)

Module Notions64.

Import Ieee Binary64.
Local Open Scope float_scope.

(** The tolerance test [Math.abs(x - y) <= 1e-6]. *)
Definition within_tolerance (x y : float) : bool :=
  PrimFloat.abs (x - y) <=? 1e-6.

(** [Math.atan2] returns no negative number, and no [-0], for a first
    argument that is not negative. *)
Definition atan2_keeps_sign (M : MathLibrary) : Prop :=
  forall y x, not_negative y = true -> not_negative (Math_atan2 y x) = true.

(** The haversine distances (km) between consecutive waypoints, added from
    left to right, starting from [0]. *)
Definition haversine_sum {M : MathLibrary} (waypoints : list LatLng) : float :=
  fold_left (fun total pq => total + haversineDistance (fst pq) (snd pq))
    (Spec.consecutive_pairs waypoints) 0.

(** [f] is odd at [x]. *)
Definition odd_at (f : float -> float) (x : float) : Prop :=
  f (- x) = - f x.

(** Half the difference of two angles given in degrees, in radians: the
    arguments of the two sines of [haversineDistance]. *)
Definition half_difference (from to : float) : float :=
  toRad (to - from) / 2.

End Notions64.

(* ================================================================== *)
(** * Geo-math: distances along the equator, in exact arithmetic *)
(* ================================================================== *)

Import Js Routing Pois Spec.

Section GeoMath.

Lemma toRad_0 : toRad 0 = 0.
Proof. unfold toRad. lra. Qed.

Lemma Math_atan2_sin_cos (x : R) :
  0 <= x < PI / 2 -> Math_atan2 (sin x) (cos x) = x.
Proof.
  intros [Hl Hu]. unfold Math_atan2.
  assert (Hc : 0 < cos x) by (apply cos_gt_0; lra).
  destruct (Rlt_dec 0 (cos x)) as [_ | n]; [| contradiction].
  change (sin x / cos x) with (tan x).
  apply atan_tan. lra.
Qed.

(** Along the equator the distance is the arc of the longitude
    difference. *)
Lemma haversine_equator (x y : R) :
  0 <= y - x < 180 ->
  haversineDistance (0, x) (0, y) = 6371 * toRad (y - x).
Proof.
  intros [Hl Hu]. generalize PI_RGT_0; intros HPI.
  set (t := toRad (y - x) / 2).
  assert (Ht : 0 <= t < PI / 2) by (unfold t, toRad; split; nra).
  assert (Hs : 0 <= sin t) by (apply sin_ge_0; lra).
  assert (Hc : 0 < cos t) by (apply cos_gt_0; lra).
  assert (Ha : haversine_a (0, x) (0, y) = (sin t)²).
  { unfold haversine_a; cbv zeta; simpl fst; simpl snd.
    rewrite Rminus_diag, toRad_0. fold t.
    replace (0 / 2) with 0 by lra. rewrite sin_0, cos_0. unfold Rsqr. ring. }
  unfold haversineDistance; cbv zeta. rewrite Ha.
  rewrite sqrt_Rsqr by assumption.
  replace (1 - (sin t)²) with ((cos t)²)
    by (generalize (sin2_cos2 t); lra).
  rewrite sqrt_Rsqr by lra.
  rewrite Math_atan2_sin_cos by assumption.
  unfold t. lra.
Qed.

End GeoMath.

(* ================================================================== *)
(** * Route calculator *)
(* ================================================================== *)

Section Fallback.

Lemma haversine_sum_short (l : list LatLng) :
  (List.length l <= 1)%nat -> haversine_sum l = 0.
Proof.
  destruct l as [| p [| q t]]; simpl; intros H; try reflexivity; lia.
Qed.

Lemma haversine_sum_skipn (d : LatLng) (l : list LatLng) :
  forall i, (S i < List.length l)%nat ->
  haversine_sum (skipn i l) =
  haversineDistance (nth i l d) (nth (S i) l d) + haversine_sum (skipn (S i) l).
Proof.
  induction l as [| p t IH]; intros i Hi; simpl in Hi; [lia |].
  destruct i as [| i].
  - destruct t as [| q t']; simpl in Hi; [lia |]. reflexivity.
  - change (skipn (S i) (p :: t)) with (skipn i t).
    change (skipn (S (S i)) (p :: t)) with (skipn (S i) t).
    change (nth (S i) (p :: t) d) with (nth i t d).
    change (nth (S (S i)) (p :: t) d) with (nth (S i) t d).
    apply IH. lia.
Qed.

(** The loop adds up the legs from index [i] on, whenever the iteration
    bound covers the rest of the list. *)
Lemma fallback_loop_sum (waypoints : list LatLng) :
  forall fuel i totalDistance,
  (List.length waypoints <= fuel + i)%nat ->
  fallback_loop fuel waypoints i totalDistance =
  totalDistance + haversine_sum (skipn i waypoints).
Proof.
  induction fuel as [| fuel IH]; intros i total Hfuel; simpl.
  - rewrite haversine_sum_short; [lra |].
    rewrite length_skipn. lia.
  - destruct (Z.ltb_spec (Z.of_nat i) (Z.of_nat (List.length waypoints) - 1))
      as [Hlt | Hge].
    + rewrite IH by lia.
      rewrite (haversine_sum_skipn (0, 0) waypoints i) by lia. lra.
    + rewrite haversine_sum_short; [lra |].
      rewrite length_skipn. lia.
Qed.

Lemma TransportModes_speed (mode : string) (m : TransportMode) :
  TransportModes mode = Some m ->
  num_or (avgSpeed m) 80 = avgSpeed m /\ 0 < avgSpeed m.
Proof.
  unfold TransportModes, num_or.
  destruct (mode =? "driving")%string;
    [| destruct (mode =? "cycling")%string;
       [| destruct (mode =? "walking")%string]];
  intros H; inversion H; subst; simpl;
  (split; [destruct (Req_dec_T _ 0); [lra | reflexivity] | lra]).
Qed.

(** C1.  For every list of waypoint coordinates (of two or more in
    particular) and every transport mode, the fallback route has a distance
    in meters of 1.3 times the sum of the haversine distances (km) between
    consecutive waypoints, times 1000, and a duration in seconds of that
    road distance (km) divided by the mode's average speed (km/h), times
    3600. *)
Theorem fallback_route_formula (waypoints : list LatLng) (mode : string)
    (m : TransportMode) :
  (2 <= List.length waypoints)%nat ->
  TransportModes mode = Some m ->
  distance (calculateFallbackRoute waypoints mode) =
    1.3 * haversine_sum waypoints * 1000 /\
  duration (calculateFallbackRoute waypoints mode) =
    1.3 * haversine_sum waypoints / avgSpeed m * 3600.
Proof.
  intros _ Hm. destruct (TransportModes_speed mode m Hm) as [Hor Hpos].
  unfold calculateFallbackRoute; cbv zeta; simpl.
  rewrite Hm, Hor, fallback_loop_sum by lia.
  simpl skipn. split; [lra |].
  field. lra.
Qed.

Lemma fallback_route_formula_witness :
  let stops : list LatLng := [(0, 0); (0, 1); (0, 3)] in
  (2 <= List.length stops)%nat /\
  TransportModes "walking" = Some walking /\
  (distance (calculateFallbackRoute stops "walking") =
     1.3 * haversine_sum stops * 1000 /\
   duration (calculateFallbackRoute stops "walking") =
     1.3 * haversine_sum stops / avgSpeed walking * 3600).
Proof.
  cbv zeta. split; [simpl; lia |]. split; [reflexivity |].
  apply (fallback_route_formula [(0, 0); (0, 1); (0, 3)] "walking" walking).
  - simpl; lia.
  - reflexivity.
Defined.

End Fallback.

Section Calculate.

(** C2.  For every list of fewer than two coordinates ([null] and
    [undefined] included), [calculateRoute] fails with the
    insufficient-waypoints error and sends no request to the routing
    service. *)
Theorem calculateRoute_insufficient (fetch : Request -> FetchOutcome)
    (waypoints : option (list LatLng)) (mode : string) :
  fewer_than_two waypoints ->
  calculateRoute fetch waypoints mode = ([], Throw insufficient_waypoints).
Proof.
  unfold calculateRoute, beginRoute, fewer_than_two.
  destruct waypoints as [wps |]; intros H; [| reflexivity].
  destruct (Nat.ltb_spec (List.length wps) 2); [reflexivity | lia].
Qed.

Lemma calculateRoute_insufficient_witness :
  let one : option (list LatLng) := Some [(64.1466, -21.9426)] in
  let fetch := fun _ : Request => Sample.response 1000 60 in
  fewer_than_two one /\
  calculateRoute fetch one "driving" = ([], Throw insufficient_waypoints).
Proof.
  cbv zeta. split; [simpl; lia |].
  apply calculateRoute_insufficient. simpl; lia.
Defined.



End Calculate.

(* ================================================================== *)
(** * Binary64 arithmetic *)
(* ================================================================== *)

Section SpecFacts.

Import Ieee.

Local Open Scope Z_scope.


Lemma binary_round_aux_opp (s : bool) (m e : Z) (l : SpecFloat.location) :
  binary_round_aux prec emax (negb s) m e l =
  SFopp (binary_round_aux prec emax s m e l).
Proof.
  unfold binary_round_aux.
  destruct (shr_fexp prec emax m e l) as [mrs' e'].
  destruct (shr_fexp prec emax _ e' loc_Exact) as [mrs'' e''].
  destruct (shr_m mrs''); try reflexivity.
  destruct (Z.leb e'' (emax - prec)); reflexivity.
Qed.

Lemma SFopp_involutive (x : spec_float) : SFopp (SFopp x) = x.
Proof. destruct x; simpl; rewrite ?negb_involutive; reflexivity. Qed.

Lemma SFmul_comm (x y : spec_float) : SF64mul x y = SF64mul y x.
Proof.
  destruct x as [sx | sx | | sx mx ex], y as [sy | sy | | sy my ey];
    simpl; rewrite ?(xorb_comm sx sy); try reflexivity.
  now rewrite Pos.mul_comm, Z.add_comm.
Qed.

Lemma SFmul_opp_l (x y : spec_float) :
  SF64mul (SFopp x) y = SFopp (SF64mul x y).
Proof.
  destruct x as [sx | sx | | sx mx ex], y as [sy | sy | | sy my ey];
    simpl; rewrite <- ?negb_xorb_l; try reflexivity.
  apply binary_round_aux_opp.
Qed.

Lemma SFdiv_opp_l (x y : spec_float) :
  SF64div (SFopp x) y = SFopp (SF64div x y).
Proof.
  destruct x as [sx | sx | | sx mx ex], y as [sy | sy | | sy my ey];
    simpl; rewrite <- ?negb_xorb_l; try reflexivity.
  destruct (SFdiv_core_binary prec emax (Z.pos mx) ex (Z.pos my) ey) as [[mz ez] lz].
  apply binary_round_aux_opp.
Qed.

Lemma binary_round_opp (s : bool) (m : positive) (e : Z) :
  binary_round prec emax (negb s) m e = SFopp (binary_round prec emax s m e).
Proof.
  unfold binary_round.
  destruct (shl_align m e _) as [mz ez]. apply binary_round_aux_opp.
Qed.

Lemma binary_normalize_opp (m e : Z) :
  m <> 0%Z ->
  binary_normalize prec emax (- m) e false =
  SFopp (binary_normalize prec emax m e false).
Proof.
  destruct m as [| p | p]; intros H; [contradiction | |]; simpl.
  - apply (binary_round_opp false).
  - apply (binary_round_opp true).
Qed.

(** [y - x] is [-(x - y)], except that both are [+0] when the difference
    vanishes. *)
Lemma SFsub_antisym (x y : spec_float) :
  SF64sub y x = SFopp (SF64sub x y) \/
  (SF64sub x y = S754_zero false /\ SF64sub y x = S754_zero false).
Proof.
  destruct x as [sx | sx | | sx mx ex], y as [sy | sy | | sy my ey];
    try (left; reflexivity);
    try (destruct sx, sy; simpl; auto; fail).
  unfold SF64sub, SFsub.
  change (IntDef.Z.min ey ex) with (Z.min ey ex).
  change (IntDef.Z.min ex ey) with (Z.min ex ey).
  rewrite (Z.min_comm ey ex).
  set (ez := Z.min ex ey).
  set (a := cond_Zopp sx (Z.pos (fst (shl_align mx ex ez)))).
  set (b := cond_Zopp sy (Z.pos (fst (shl_align my ey ez)))).
  destruct (Z.eq_dec (a - b) 0) as [E | NE].
  - right. replace (b - a)%Z with 0%Z by lia. rewrite E. auto.
  - left. replace (b - a)%Z with (- (a - b))%Z by lia.
    now apply binary_normalize_opp.
Qed.


(** *** No underflow to zero *)

Lemma shr_m_of_loc (m : Z) (l : SpecFloat.location) :
  shr_m (shr_record_of_loc m l) = m.
Proof. destruct l as [| []]; reflexivity. Qed.

Lemma shr_1_div2 (mrs : shr_record) :
  (0 <= shr_m mrs)%Z -> shr_m (shr_1 mrs) = Z.div2 (shr_m mrs).
Proof.
  destruct mrs as [m r s]; simpl. intros H.
  destruct m as [| [p | p |] | p]; try reflexivity; lia.
Qed.

Lemma shr_1_nonneg (mrs : shr_record) :
  (0 <= shr_m mrs)%Z -> (0 <= shr_m (shr_1 mrs))%Z.
Proof.
  intros H. rewrite shr_1_div2 by exact H.
  rewrite Z.div2_div. apply Z.div_pos; lia.
Qed.

Lemma iter_shr_1 (p : positive) :
  forall mrs, (0 <= shr_m mrs)%Z ->
  shr_m (SpecFloat.iter_pos shr_1 p mrs) = (shr_m mrs / 2 ^ Z.pos p)%Z.
Proof.
  induction p as [p IH | p IH |]; intros mrs H; simpl SpecFloat.iter_pos.
  - assert (H1 := shr_1_nonneg mrs H).
    assert (H2 : (0 <= shr_m (SpecFloat.iter_pos shr_1 p (shr_1 mrs)))%Z).
    { rewrite IH by exact H1. apply Z.div_pos; [exact H1 | lia]. }
    rewrite (IH _ H2), (IH _ H1), shr_1_div2, Z.div2_div by exact H.
    rewrite !Z.div_div by lia.
    f_equal. rewrite (Pos2Z.inj_xI p).
    replace (2 * Z.pos p + 1)%Z with (Z.succ (2 * Z.pos p)) by lia.
    rewrite Z.pow_succ_r, Z.pow_twice_r by lia. reflexivity.
  - assert (H2 : (0 <= shr_m (SpecFloat.iter_pos shr_1 p mrs))%Z).
    { rewrite IH by exact H. apply Z.div_pos; [exact H | lia]. }
    rewrite (IH _ H2), (IH _ H).
    rewrite !Z.div_div by lia.
    f_equal. rewrite (Pos2Z.inj_xO p).
    rewrite Z.pow_twice_r. reflexivity.
  - rewrite shr_1_div2, Z.div2_div by exact H. reflexivity.
Qed.

Lemma digits2_pos_lower (m : positive) :
  (2 ^ (Z.pos (digits2_pos m) - 1) <= Z.pos m)%Z.
Proof.
  induction m as [m IH | m IH |]; simpl digits2_pos;
    rewrite ?Pos2Z.inj_succ; [| | simpl; lia].
  - replace (Z.succ (Z.pos (digits2_pos m)) - 1)%Z
      with (1 + (Z.pos (digits2_pos m) - 1))%Z by lia.
    rewrite Z.pow_add_r by lia. lia.
  - replace (Z.succ (Z.pos (digits2_pos m)) - 1)%Z
      with (1 + (Z.pos (digits2_pos m) - 1))%Z by lia.
    rewrite Z.pow_add_r by lia. lia.
Qed.

Lemma shr_fexp_pos (p : positive) (e : Z) (l : SpecFloat.location) :
  (-1074 <= e)%Z ->
  (0 < shr_m (fst (shr_fexp prec emax (Z.pos p) e l)))%Z /\
  (-1074 <= snd (shr_fexp prec emax (Z.pos p) e l))%Z.
Proof.
  intros He. unfold shr_fexp, shr.
  set (n := (fexp prec emax (Zdigits2 (Z.pos p) + e) - e)%Z).
  assert (Hn : (n <= Z.pos (digits2_pos p) - 1)%Z).
  { unfold n, fexp, SpecFloat.emin, prec, emax in *. simpl Zdigits2.
    change (IntDef.Z.max ?a ?b) with (Z.max a b). lia. }
  destruct n as [| q | q] eqn:En; simpl fst; simpl snd;
    rewrite ?shr_m_of_loc; try (split; lia).
  rewrite iter_shr_1 by (rewrite shr_m_of_loc; lia).
  rewrite shr_m_of_loc. split; [| lia].
  assert (Hd := digits2_pos_lower p).
  apply Z.div_str_pos. split; [lia |].
  apply Z.le_trans with (2 ^ (Z.pos (digits2_pos p) - 1))%Z; [| exact Hd].
  apply Z.pow_le_mono_r; lia.
Qed.

Lemma round_nearest_even_pos (m : Z) (l : SpecFloat.location) :
  (0 < m)%Z -> (0 < round_nearest_even m l)%Z.
Proof.
  intros H. destruct l as [| []]; simpl; try lia.
  destruct (Z.even m); lia.
Qed.

Lemma binary_round_aux_not_zero (s s' : bool) (p : positive) (e : Z)
    (l : SpecFloat.location) :
  (-1074 <= e)%Z ->
  binary_round_aux prec emax s (Z.pos p) e l <> S754_zero s'.
Proof.
  intros He. unfold binary_round_aux.
  destruct (shr_fexp_pos p e l He) as [Hm He'].
  destruct (shr_fexp prec emax (Z.pos p) e l) as [mrs' e']. simpl in Hm, He'.
  assert (Hr := round_nearest_even_pos _ (loc_of_shr_record mrs') Hm).
  destruct (round_nearest_even (shr_m mrs') (loc_of_shr_record mrs'))
    as [| q | q]; try lia.
  destruct (shr_fexp_pos q e' loc_Exact He') as [Hm2 _].
  destruct (shr_fexp prec emax (Z.pos q) e' loc_Exact) as [mrs'' e''].
  simpl in Hm2.
  destruct (shr_m mrs''); try lia.
  destruct (Z.leb e'' (emax - prec)); discriminate.
Qed.

Lemma binary_round_not_zero (s s' : bool) (m : positive) (e : Z) :
  (-1074 <= e)%Z -> binary_round prec emax s m e <> S754_zero s'.
Proof.
  intros He. unfold binary_round, shl_align.
  set (e1 := fexp prec emax (Z.pos (digits2_pos m) + e)).
  assert (He1 : (-1074 <= e1)%Z).
  { unfold e1, fexp, SpecFloat.emin, prec, emax.
    change (IntDef.Z.max ?a ?b) with (Z.max a b). lia. }
  destruct (e1 - e)%Z; apply binary_round_aux_not_zero; assumption.
Qed.

Lemma valid_finite_emin (s : bool) (m : positive) (e : Z) :
  valid_binary (S754_finite s m e) = true -> (-1074 <= e)%Z.
Proof.
  unfold SpecFloat.valid_binary, bounded, canonical_mantissa.
  intros H. apply andb_prop in H. destruct H as [H _].
  apply Z.eqb_eq in H. rewrite <- H.
  unfold fexp, SpecFloat.emin, prec, emax.
  change (IntDef.Z.max ?a ?b) with (Z.max a b). lia.
Qed.

(** A sum is [-0] only when both terms are. *)
Lemma SFadd_neg_zero (x y : spec_float) :
  valid_binary x = true -> valid_binary y = true ->
  SF64add x y = S754_zero true -> x = S754_zero true /\ y = S754_zero true.
Proof.
  intros Hx Hy.
  destruct x as [sx | sx | | sx mx ex], y as [sy | sy | | sy my ey];
    simpl; try discriminate;
    try (destruct sx; try destruct sy; simpl; intros H;
         try discriminate; auto; fail).
  intros H. exfalso.
  apply valid_finite_emin in Hx, Hy.
  change (IntDef.Z.min ex ey) with (Z.min ex ey) in H.
  set (ez := Z.min ex ey) in *.
  destruct (cond_Zopp sx _ + cond_Zopp sy _)%Z; simpl in H;
    [discriminate | |];
    revert H; apply binary_round_not_zero; unfold ez; lia.
Qed.


(** *** Signs *)

Lemma binary_round_aux_sign (m e : Z) (l : SpecFloat.location) :
  SFnot_negative (binary_round_aux prec emax false m e l) = true.
Proof.
  unfold binary_round_aux.
  destruct (shr_fexp prec emax m e l) as [mrs' e'].
  destruct (shr_fexp prec emax _ e' loc_Exact) as [mrs'' e''].
  destruct (shr_m mrs''); try reflexivity.
  destruct (Z.leb e'' (emax - prec)); reflexivity.
Qed.

Lemma binary_round_sign (m : positive) (e : Z) :
  SFnot_negative (binary_round prec emax false m e) = true.
Proof.
  unfold binary_round. destruct (shl_align m e _) as [mz ez].
  apply binary_round_aux_sign.
Qed.

Lemma SFmul_sign (x y : spec_float) :
  SFnot_negative x = true -> SFnot_negative y = true ->
  SFnot_negative (SF64mul x y) = true.
Proof.
  destruct x as [[] | [] | | [] mx ex], y as [[] | [] | | [] my ey];
    simpl; intros Hx Hy; try discriminate; try reflexivity.
  apply binary_round_aux_sign.
Qed.

Lemma SFmul_square_sign (x : spec_float) :
  SFnot_negative (SF64mul x x) = true.
Proof.
  destruct x as [[] | [] | | [] mx ex]; simpl; try reflexivity;
    apply binary_round_aux_sign.
Qed.

Lemma SFdiv_sign (x y : spec_float) :
  SFnot_negative x = true -> SFnot_negative y = true ->
  SFnot_negative (SF64div x y) = true.
Proof.
  destruct x as [[] | [] | | [] mx ex], y as [[] | [] | | [] my ey];
    simpl; intros Hx Hy; try discriminate; try reflexivity.
  destruct (SFdiv_core_binary prec emax (Z.pos mx) ex (Z.pos my) ey)
    as [[mz ez] lz].
  apply binary_round_aux_sign.
Qed.

Lemma SFadd_sign (x y : spec_float) :
  SFnot_negative x = true -> SFnot_negative y = true ->
  SFnot_negative (SF64add x y) = true.
Proof.
  destruct x as [[] | [] | | [] mx ex], y as [[] | [] | | [] my ey];
    simpl; intros Hx Hy; try discriminate; try reflexivity.
  apply binary_round_sign.
Qed.

(** The square root of a sum whose first term is not negative is not
    negative: the sum is not [-0], and a negative sum has the root [NaN]. *)
Lemma SFsqrt_add_sign (x y : spec_float) :
  valid_binary x = true -> valid_binary y = true ->
  SFnot_negative x = true ->
  SFnot_negative (SF64sqrt (SF64add x y)) = true.
Proof.
  intros Vx Vy Hx.
  destruct (SF64add x y) as [[] | [] | | [] m e] eqn:E; try reflexivity.
  - destruct (SFadd_neg_zero x y Vx Vy E) as [-> _]. discriminate.
  - simpl.
    destruct (SFsqrt_core_binary prec emax (Z.pos m) e) as [[mz ez] lz].
    apply binary_round_aux_sign.
Qed.

(** *** Finite values *)

Lemma SFsub_diag (x : spec_float) :
  SFfinite x = true -> SF64sub x x = S754_zero false.
Proof.
  destruct x as [[] | s | | s m e]; simpl; intros H;
    try discriminate; try reflexivity.
  now rewrite Z.sub_diag.
Qed.

Lemma SFleb_bounds_finite (lo hi x : spec_float) :
  SFfinite lo = true -> SFfinite hi = true ->
  SFleb lo x = true -> SFleb x hi = true -> SFfinite x = true.
Proof.
  destruct x as [s | [] | | s m e]; try reflexivity;
    destruct lo as [sl | sl | | sl ml el], hi as [sh | sh | | sh mh eh];
    simpl; intros; try discriminate; destruct sl; discriminate.
Qed.

(** *** No overflow below one *)

Lemma digits2_pos_upper (m : positive) :
  Z.pos m < 2 ^ Z.pos (digits2_pos m).
Proof.
  induction m as [m IH | m IH |]; simpl digits2_pos;
    rewrite ?Pos2Z.inj_succ, ?Z.pow_succ_r by lia; [| | simpl]; lia.
Qed.

Lemma digits2_pos_le (m : positive) (k : Z) :
  0 <= k -> Z.pos m < 2 ^ k -> Z.pos (digits2_pos m) <= k.
Proof.
  intros Hk Hm. assert (Hl := digits2_pos_lower m).
  assert (H : 2 ^ (Z.pos (digits2_pos m) - 1) < 2 ^ k) by lia.
  apply Z.pow_lt_mono_r_iff in H; lia.
Qed.

Lemma digits2_pos_mul (a b : positive) :
  Z.pos (digits2_pos (a * b)) <=
  Z.pos (digits2_pos a) + Z.pos (digits2_pos b).
Proof.
  apply digits2_pos_le; [lia |].
  rewrite Pos2Z.inj_mul, Z.pow_add_r by lia.
  assert (Ha := digits2_pos_upper a). assert (Hb := digits2_pos_upper b).
  nia.
Qed.

Lemma fexp_le (x y : Z) : x <= y -> fexp prec emax x <= fexp prec emax y.
Proof.
  unfold fexp. change (IntDef.Z.max ?a ?b) with (Z.max a b). lia.
Qed.

Lemma fexp_small (x : Z) : x <= 3 -> fexp prec emax x <= 0.
Proof.
  unfold fexp, SpecFloat.emin, prec, emax.
  change (IntDef.Z.max ?a ?b) with (Z.max a b). lia.
Qed.

(** What a right shift to the canonical exponent leaves. *)
Lemma shr_fexp_bounds (m e : Z) (l : SpecFloat.location) :
  0 <= m ->
  let r := shr_fexp prec emax m e l in
  0 <= shr_m (fst r) /\
  snd r = Z.max e (fexp prec emax (Zdigits2 m + e)) /\
  (shr_m (fst r) = 0 \/ Zdigits2 (shr_m (fst r)) + snd r <= Zdigits2 m + e).
Proof.
  intros Hm. cbv zeta. unfold shr_fexp, shr.
  set (x := fexp prec emax (Zdigits2 m + e)).
  destruct (x - e) as [| n | n] eqn:En; simpl fst; simpl snd;
    rewrite ?shr_m_of_loc.
  - repeat split; [lia | lia | right; lia].
  - rewrite iter_shr_1 by (rewrite shr_m_of_loc; lia).
    rewrite shr_m_of_loc.
    assert (Hq : 0 <= m / 2 ^ Z.pos n) by (apply Z.div_pos; lia).
    repeat split; [exact Hq | lia |].
    destruct (m / 2 ^ Z.pos n) as [| q | q] eqn:Eq; [left; reflexivity | | lia].
    right. destruct m as [| p | p]; [discriminate | | lia].
    simpl Zdigits2.
    assert (Hn : Z.pos n <= Z.pos (digits2_pos p)).
    { destruct (Z.le_gt_cases (Z.pos n) (Z.pos (digits2_pos p))); [assumption |].
      exfalso. assert (Hu := digits2_pos_upper p).
      assert (Z.pos p / 2 ^ Z.pos n = 0); [| lia].
      apply Z.div_small. split; [lia |].
      apply Z.lt_le_trans with (2 ^ Z.pos (digits2_pos p)); [exact Hu |].
      apply Z.pow_le_mono_r; lia. }
    assert (Z.pos (digits2_pos q) <= Z.pos (digits2_pos p) - Z.pos n); [| lia].
    apply digits2_pos_le; [lia |].
    rewrite <- Eq.
    apply Z.div_lt_upper_bound; [lia |].
    rewrite <- Z.pow_add_r by lia.
    replace (Z.pos n + (Z.pos (digits2_pos p) - Z.pos n))
      with (Z.pos (digits2_pos p)) by lia.
    apply digits2_pos_upper.
  - repeat split; [lia | lia | right; lia].
Qed.

(** A value with exponent at most [0] and at most two integer bits rounds
    to a zero or a finite number of the same sign. *)
Lemma binary_round_aux_small (s : bool) (p : positive) (e : Z)
    (l : SpecFloat.location) :
  Z.pos (digits2_pos p) + e <= 2 -> e <= 0 ->
  binary_round_aux prec emax s (Z.pos p) e l = S754_zero s \/
  exists m' e', binary_round_aux prec emax s (Z.pos p) e l = S754_finite s m' e'.
Proof.
  intros Hd He. unfold binary_round_aux.
  destruct (shr_fexp_bounds (Z.pos p) e l) as (H1 & H2 & H3); [lia |].
  destruct (shr_fexp prec emax (Z.pos p) e l) as [mrs' e'].
  simpl fst in *; simpl snd in *. simpl Zdigits2 in *.
  assert (Hf := fexp_small (Z.pos (digits2_pos p) + e)).
  assert (He' : e' <= 0) by lia.
  set (m2 := round_nearest_even (shr_m mrs') (loc_of_shr_record mrs')).
  assert (Hm2 : m2 = shr_m mrs' \/ m2 = shr_m mrs' + 1).
  { unfold m2, round_nearest_even.
    destruct (loc_of_shr_record mrs') as [| []]; auto.
    destruct (Z.even (shr_m mrs')); auto. }
  clearbody m2.
  assert (Hd2 : Zdigits2 m2 + e' <= 3).
  { destruct H3 as [H3 | H3].
    - rewrite H3 in Hm2.
      destruct Hm2 as [-> | ->];
        [change (Zdigits2 0) with 0 | change (Zdigits2 (0 + 1)) with 1]; lia.
    - destruct Hm2 as [-> | Hm2]; [lia |].
      destruct (shr_m mrs') as [| q | q] eqn:Eq;
        [rewrite Hm2; change (Zdigits2 (0 + 1)) with 1; lia | | lia].
      simpl Zdigits2 in H3.
      destruct m2 as [| q2 | q2]; [change (Zdigits2 0) with 0; lia | | lia].
      simpl Zdigits2.
      assert (Z.pos (digits2_pos q2) <= Z.pos (digits2_pos q) + 1); [| lia].
      apply digits2_pos_le; [lia |].
      assert (Hu := digits2_pos_upper q).
      rewrite Z.pow_add_r by lia. lia. }
  assert (Hpos : 0 <= m2) by lia.
  destruct (shr_fexp_bounds m2 e' loc_Exact Hpos) as (K1 & K2 & _).
  destruct (shr_fexp prec emax m2 e' loc_Exact) as [mrs'' e''].
  simpl fst in *; simpl snd in *.
  destruct (shr_m mrs'') as [| q | q]; [left; reflexivity | | lia].
  right.
  assert (Hf2 := fexp_small (Zdigits2 m2 + e') Hd2).
  assert (Hle : Z.leb e'' (emax - prec) = true).
  { apply Z.leb_le. unfold emax, prec. lia. }
  rewrite Hle. eauto.
Qed.

Lemma valid_finite_digits (s : bool) (m : positive) (e : Z) :
  valid_binary (S754_finite s m e) = true -> Z.pos (digits2_pos m) <= 53.
Proof.
  unfold SpecFloat.valid_binary, bounded, canonical_mantissa.
  intros H. apply andb_prop in H. destruct H as [H _].
  apply Z.eqb_eq in H. revert H.
  unfold fexp, SpecFloat.emin, prec, emax.
  change (IntDef.Z.max ?a ?b) with (Z.max a b). lia.
Qed.

(** The square of a number of absolute value at most one is a zero or a
    finite number. *)
Lemma SFmul_square_finite (x : spec_float) :
  valid_binary x = true ->
  SFleb (SFabs x) (S754_finite false 4503599627370496 (-52)) = true ->
  SFfinite (SF64mul x x) = true /\ SFnot_negative (SF64mul x x) = true.
Proof.
  intros V H. split; [| apply SFmul_square_sign].
  destruct x as [s | s | | s m e]; try discriminate; [reflexivity |].
  assert (He : e <= -52).
  { unfold SFleb, SFabs, SFcompare in H.
    destruct (Z.compare_spec e (-52)); [lia | lia | discriminate]. }
  assert (Hd := valid_finite_digits s m e V).
  assert (Hm := digits2_pos_mul m m).
  simpl.
  destruct (binary_round_aux_small (xorb s s) (m * m) (e + e) loc_Exact)
    as [-> | (m' & e' & ->)]; try reflexivity; lia.
Qed.

Lemma SFmul_zero_r (x : spec_float) :
  SFfinite x = true -> SFnot_negative x = true ->
  SF64mul x (S754_zero false) = S754_zero false.
Proof.
  destruct x as [[] | s | | [] m e]; simpl; intros; try discriminate;
    reflexivity.
Qed.

End SpecFacts.

Section FloatFacts.

Import Ieee.
Local Open Scope float_scope.

Lemma float_mul_comm (x y : float) : x * y = y * x.
Proof. apply Prim2SF_inj. rewrite !mul_spec. apply SFmul_comm. Qed.

Lemma float_mul_opp_l (x y : float) : - x * y = - (x * y).
Proof.
  apply Prim2SF_inj. rewrite opp_spec, !mul_spec, opp_spec.
  apply SFmul_opp_l.
Qed.

Lemma float_mul_opp_r (x y : float) : x * - y = - (x * y).
Proof.
  rewrite (float_mul_comm x (- y)), float_mul_opp_l, (float_mul_comm y x).
  reflexivity.
Qed.

Lemma float_opp_involutive (x : float) : - - x = x.
Proof. apply Prim2SF_inj. rewrite !opp_spec. apply SFopp_involutive. Qed.

Lemma float_mul_opp_opp (x y : float) : - x * - y = x * y.
Proof.
  rewrite float_mul_opp_l, float_mul_opp_r. apply float_opp_involutive.
Qed.

Lemma float_div_opp_l (x y : float) : - x / y = - (x / y).
Proof.
  apply Prim2SF_inj. rewrite opp_spec, !div_spec, opp_spec.
  apply SFdiv_opp_l.
Qed.

(** [y - x] is [-(x - y)], except that both are [+0] when the difference
    vanishes. *)
Lemma float_sub_antisym (x y : float) :
  y - x = - (x - y) \/ (x - y = 0 /\ y - x = 0).
Proof.
  destruct (SFsub_antisym (Prim2SF x) (Prim2SF y)) as [H | [H1 H2]].
  - left. apply Prim2SF_inj. rewrite opp_spec, !sub_spec. exact H.
  - right. split; apply Prim2SF_inj; rewrite sub_spec; assumption.
Qed.

Lemma not_negative_mul (x y : float) :
  not_negative x = true -> not_negative y = true ->
  not_negative (x * y) = true.
Proof. unfold not_negative. rewrite mul_spec. apply SFmul_sign. Qed.

Lemma not_negative_square (x : float) : not_negative (x * x) = true.
Proof. unfold not_negative. rewrite mul_spec. apply SFmul_square_sign. Qed.

Lemma not_negative_div (x y : float) :
  not_negative x = true -> not_negative y = true ->
  not_negative (x / y) = true.
Proof. unfold not_negative. rewrite div_spec. apply SFdiv_sign. Qed.

Lemma not_negative_add (x y : float) :
  not_negative x = true -> not_negative y = true ->
  not_negative (x + y) = true.
Proof. unfold not_negative. rewrite add_spec. apply SFadd_sign. Qed.

Lemma not_negative_sqrt_add (x y : float) :
  not_negative x = true -> not_negative (PrimFloat.sqrt (x + y)) = true.
Proof.
  unfold not_negative. rewrite sqrt_spec, add_spec.
  apply SFsqrt_add_sign; apply Prim2SF_valid.
Qed.

(** A number that is not negative in the sense of [not_negative] is not
    below zero. *)
Lemma not_negative_ltb (x : float) :
  not_negative x = true -> (x <? 0) = false.
Proof.
  unfold not_negative. rewrite FloatAxioms.ltb_spec.
  change (Prim2SF 0) with (S754_zero false).
  destruct (Prim2SF x) as [[] | [] | | [] m e]; simpl; intros H;
    try discriminate; reflexivity.
Qed.

(** A number between two finite bounds has difference [+0] with itself. *)
Lemma float_sub_diag (lo hi x : float) :
  SFfinite (Prim2SF lo) = true -> SFfinite (Prim2SF hi) = true ->
  (lo <=? x) = true -> (x <=? hi) = true -> x - x = 0.
Proof.
  rewrite !FloatAxioms.leb_spec. intros Hlo Hhi H1 H2.
  apply Prim2SF_inj. rewrite sub_spec.
  apply SFsub_diag. exact (SFleb_bounds_finite _ _ _ Hlo Hhi H1 H2).
Qed.

(** The square of a number of absolute value at most [1], times [0]. *)
Lemma float_square_mul_zero (x : float) :
  (PrimFloat.abs x <=? 1) = true -> x * x * 0 = 0.
Proof.
  rewrite FloatAxioms.leb_spec, abs_spec. intros H.
  destruct (SFmul_square_finite (Prim2SF x) (Prim2SF_valid x) H) as [Hf Hs].
  apply Prim2SF_inj. rewrite mul_spec, mul_spec.
  apply SFmul_zero_r; assumption.
Qed.

(** The tolerance test on a number and itself holds for finite numbers
    only: the difference of [NaN] or an infinity with itself is [NaN]. *)
Lemma within_tolerance_diag (x : float) :
  Notions64.within_tolerance x x = is_finite x.
Proof.
  unfold Notions64.within_tolerance.
  destruct (Prim2SF x) as [s | s | | s m e] eqn:E.
  - assert (Hx : x - x = 0).
    { apply Prim2SF_inj. rewrite sub_spec, E. destruct s; reflexivity. }
    rewrite Hx.
    unfold is_finite, is_nan, is_infinity.
    rewrite !FloatAxioms.eqb_spec, abs_spec, E. destruct s; reflexivity.
  - assert (Hx : x = if s then neg_infinity else infinity).
    { apply Prim2SF_inj. rewrite E. destruct s; reflexivity. }
    rewrite Hx. destruct s; reflexivity.
  - assert (Hx : x = nan) by (apply Prim2SF_inj; rewrite E; reflexivity).
    rewrite Hx. reflexivity.
  - assert (Hx : x - x = 0).
    { apply Prim2SF_inj. rewrite sub_spec, E. simpl.
      rewrite Z.sub_diag. reflexivity. }
    rewrite Hx.
    unfold is_finite, is_nan, is_infinity.
    rewrite !FloatAxioms.eqb_spec, abs_spec, E.
    unfold SFeqb, SFabs, SFcompare.
    rewrite Z.compare_refl, Pos.compare_cont_refl.
    destruct s; reflexivity.
Qed.

End FloatFacts.

(* ================================================================== *)
(** * Geo-math: the haversine distance in binary64 arithmetic *)
(* ================================================================== *)

Section GeoMath64.

Import Ieee Binary64 Notions64.
Local Open Scope float_scope.

Context {M : MathLibrary}.

Lemma half_difference_antisym (x y : float) :
  half_difference x y = - half_difference y x \/
  (half_difference y x = 0 /\ half_difference x y = 0).
Proof.
  unfold half_difference.
  destruct (float_sub_antisym x y) as [H | [H1 H2]].
  - left. rewrite H. unfold toRad.
    now rewrite float_mul_opp_l, float_div_opp_l.
  - right. rewrite H1, H2. split; reflexivity.
Qed.

(** Where the sine is odd, the squared sine of a half-difference, and a
    product with it, do not depend on the direction of the difference. *)
Lemma sine_square_sym (h h' p : float) :
  h' = - h \/ (h = 0 /\ h' = 0) ->
  odd_at Math_sin h ->
  Math_sin h' * Math_sin h' = Math_sin h * Math_sin h /\
  p * Math_sin h' * Math_sin h' = p * Math_sin h * Math_sin h.
Proof.
  unfold odd_at. intros [-> | [-> ->]] Hodd; [rewrite Hodd | split; reflexivity].
  split; [apply float_mul_opp_opp |].
  rewrite (float_mul_opp_r p). apply float_mul_opp_opp.
Qed.

Lemma haversine_a_sym (p q : LatLng) :
  odd_at Math_sin (half_difference (fst p) (fst q)) ->
  odd_at Math_sin (half_difference (snd p) (snd q)) ->
  haversine_a p q = haversine_a q p.
Proof.
  intros Hlat Hlon. unfold haversine_a; cbv zeta.
  fold (half_difference (fst p) (fst q)) (half_difference (snd p) (snd q))
       (half_difference (fst q) (fst p)) (half_difference (snd q) (snd p)).
  destruct (sine_square_sym _ _ 0
              (half_difference_antisym (fst q) (fst p)) Hlat) as [<- _].
  rewrite (float_mul_comm (Math_cos (toRad (fst p)))).
  destruct (sine_square_sym _ _
              (Math_cos (toRad (fst q)) * Math_cos (toRad (fst p)))
              (half_difference_antisym (snd q) (snd p)) Hlon) as [_ <-].
  reflexivity.
Qed.

Lemma valid_coordinate_diag (p : LatLng) :
  valid_coordinate p = true -> fst p - fst p = 0 /\ snd p - snd p = 0.
Proof.
  unfold valid_coordinate. intros H.
  apply andb_prop in H. destruct H as [H H4].
  apply andb_prop in H. destruct H as [H H3].
  apply andb_prop in H. destruct H as [H1 H2].
  split; [apply (float_sub_diag (-90) 90) | apply (float_sub_diag (-180) 180)];
    solve [reflexivity | assumption].
Qed.

Lemma haversine_a_diag (p : LatLng) :
  valid_coordinate p = true ->
  Math_sin 0 = 0 ->
  (PrimFloat.abs (Math_cos (toRad (fst p))) <=? 1) = true ->
  haversine_a p p = 0.
Proof.
  intros Hv Hsin Hcos. unfold haversine_a; cbv zeta.
  destruct (valid_coordinate_diag p Hv) as [-> ->].
  change (toRad 0 / 2) with 0. rewrite Hsin.
  rewrite (float_square_mul_zero _ Hcos). reflexivity.
Qed.

(** C4, as amended.  On an engine whose sine is odd at the two
    half-differences of the coordinates, the haversine distance from [a] to
    [b] and the distance from [b] to [a] are the same number, and they pass
    the tolerance test of 1e-6 km exactly when that number is finite.  On
    an engine with [Math.sin(0) = 0] and [Math.atan2(0, 1) = 0], whose
    cosine of the latitude of [a] is at most [1] in absolute value, the
    distance from a valid coordinate [a] to itself is [0]. *)
Theorem haversine_symmetric (a b : LatLng) :
  odd_at Math_sin (half_difference (fst a) (fst b)) ->
  odd_at Math_sin (half_difference (snd a) (snd b)) ->
  Math_sin 0 = 0 ->
  Math_atan2 0 1 = 0 ->
  valid_coordinate a = true ->
  (PrimFloat.abs (Math_cos (toRad (fst a))) <=? 1) = true ->
  haversineDistance a b = haversineDistance b a /\
  within_tolerance (haversineDistance a b) (haversineDistance b a) =
    is_finite (haversineDistance a b) /\
  haversineDistance a a = 0.
Proof.
  intros Hlat Hlon Hsin Hatan Hv Hcos.
  assert (Hsym : haversineDistance a b = haversineDistance b a).
  { unfold haversineDistance; cbv zeta.
    now rewrite (haversine_a_sym a b Hlat Hlon). }
  split; [exact Hsym |]. split.
  - rewrite <- Hsym. apply within_tolerance_diag.
  - unfold haversineDistance; cbv zeta.
    rewrite (haversine_a_diag a Hv Hsin Hcos).
    change (Math_sqrt 0) with 0. change (Math_sqrt (1 - 0)) with 1.
    rewrite Hatan. reflexivity.
Qed.

End GeoMath64.

Section GeoMath64Example.

Import Ieee Binary64 Notions64.
Local Open Scope float_scope.

Let M : MathLibrary := Tables.library.
Existing Instance M.

Lemma haversine_symmetric_witness :
  let a := Tables.reykjavik in
  let b := Tables.akureyri in
  odd_at Math_sin (half_difference (fst a) (fst b)) /\
  odd_at Math_sin (half_difference (snd a) (snd b)) /\
  Math_sin 0 = 0 /\
  Math_atan2 0 1 = 0 /\
  valid_coordinate a = true /\
  (PrimFloat.abs (Math_cos (toRad (fst a))) <=? 1) = true /\
  (haversineDistance a b = haversineDistance b a /\
   within_tolerance (haversineDistance a b) (haversineDistance b a) =
     is_finite (haversineDistance a b) /\
   haversineDistance a a = 0).
Proof.
  cbv zeta.
  repeat (split; [vm_compute; reflexivity |]).
  apply (haversine_symmetric Tables.reykjavik Tables.akureyri);
    vm_compute; reflexivity.
Defined.

(** The distance the code computes from Reykjavik to Akureyri. *)
Example reykjavik_akureyri :
  haversineDistance Tables.reykjavik Tables.akureyri = 249.65144544203983.
Proof. vm_compute. reflexivity. Qed.

(** C4 as stated fails: for the valid coordinates [[8, 0]] and
    [[-8, 180]] the haversine term is rounded to a number above [1], the
    root of [1 - a] is [NaN], and so is the distance in both directions:
    the tolerance test fails. *)
Lemma haversine_nan_near_antipodes :
  let a : LatLng := (8, 0) in
  let b : LatLng := (-8, 180) in
  valid_coordinate a = true /\ valid_coordinate b = true /\
  haversine_a a b = 0x1.0000000000001p+0 /\
  Math_sqrt (1 - haversine_a a b) = nan /\
  haversineDistance a b = nan /\ haversineDistance b a = nan /\
  within_tolerance (haversineDistance a b) (haversineDistance b a) = false.
Proof. cbv zeta. repeat split; vm_compute; reflexivity. Qed.

End GeoMath64Example.

(* ================================================================== *)
(** * Route calculator: the fallback route in binary64 arithmetic *)
(* ================================================================== *)

Section Fallback64.

Import Ieee Binary64 Notions64.
Local Open Scope float_scope.

Context {M : MathLibrary}.

Hypothesis atan2_sign : atan2_keeps_sign M.

Lemma haversineDistance_sign (p q : LatLng) :
  not_negative (haversineDistance p q) = true.
Proof.
  unfold haversineDistance, haversine_a, Math_sqrt; cbv zeta.
  apply not_negative_mul; [reflexivity |].
  apply not_negative_mul; [reflexivity |].
  apply atan2_sign, not_negative_sqrt_add, not_negative_square.
Qed.

Lemma fallback_loop_sign (waypoints : list LatLng) :
  forall fuel i totalDistance,
  not_negative totalDistance = true ->
  not_negative (fallback_loop fuel waypoints i totalDistance) = true.
Proof.
  induction fuel as [| fuel IH]; intros i total Ht; simpl; [exact Ht |].
  destruct (Z.of_nat i <? Z.of_nat (List.length waypoints) - 1)%Z;
    [| exact Ht].
  apply IH, not_negative_add; [exact Ht | apply haversineDistance_sign].
Qed.

Lemma fallback_speed_sign (mode : string) :
  not_negative match TransportModes mode with
               | Some m => num_or (avgSpeed m) 80
               | None => 80
               end = true.
Proof.
  unfold TransportModes.
  destruct (mode =? "driving")%string; [reflexivity |].
  destruct (mode =? "cycling")%string; [reflexivity |].
  destruct (mode =? "walking")%string; reflexivity.
Qed.

Lemma fallback_sign (wps : list LatLng) (mode : string) :
  let r := calculateFallbackRoute wps mode in
  isFallback r = true /\
  not_negative (distance r) = true /\ not_negative (duration r) = true.
Proof.
  cbv zeta. unfold calculateFallbackRoute; cbv zeta; simpl.
  assert (Ht : not_negative (fallback_loop (List.length wps) wps 0 0) = true)
    by (apply fallback_loop_sign; reflexivity).
  assert (Hr : not_negative (fallback_loop (List.length wps) wps 0 0 * 1.3) = true)
    by (apply not_negative_mul; [exact Ht | reflexivity]).
  split; [reflexivity |]. split.
  - apply not_negative_mul; [exact Hr | reflexivity].
  - apply not_negative_mul; [| reflexivity].
    apply not_negative_div; [exact Hr | apply fallback_speed_sign].
Qed.

End Fallback64.

Section Calculate64.

Import Ieee Binary64 Notions64.
Local Open Scope float_scope.

Context {M : MathLibrary}.

Lemma handleResponse_throws (o : FetchOutcome) :
  service_failure o -> exists e, handleResponse o = Js.Throw e.
Proof.
  destruct o as [| [|] status [data |]]; simpl; intros H; try contradiction;
    try (eexists; reflexivity).
  destruct (String.eqb_spec (code data) "Ok") as [Heq | Hne]; [contradiction |].
  simpl. eexists; reflexivity.
Qed.

Lemma calculateRoute_falls_back (fetch : Request -> FetchOutcome)
    (wps : list LatLng) (mode : string) :
  (2 <= List.length wps)%nat ->
  service_failure (fetch (buildRequest wps mode)) ->
  calculateRoute fetch (Some wps) mode =
    ([buildRequest wps mode], Js.Ok (calculateFallbackRoute wps mode)).
Proof.
  intros Hlen Hfail. unfold calculateRoute, beginRoute.
  destruct (Nat.ltb_spec (List.length wps) 2); [lia |].
  unfold resumeRoute.
  destruct (handleResponse_throws _ Hfail) as [e ->]. reflexivity.
Qed.


(** Where the longitudes differ by so little that the difference vanishes
    in the conversion to radians, the distance is [0] on every engine that
    gives [Math.sin(0)], [Math.cos(0)] and [Math.atan2(0, 1)] the values
    the language prescribes. *)
Lemma haversineDistance_underflow :
  Math_sin 0 = 0 -> Math_cos 0 = 1 -> Math_atan2 0 1 = 0 ->
  haversineDistance (0, 0) (0, 5e-324) = 0.
Proof.
  intros Hsin Hcos Hatan.
  unfold haversineDistance, haversine_a; cbv zeta.
  change (toRad (fst (0, 5e-324) - fst (0, 0)) / 2) with 0.
  change (toRad (snd (0, 5e-324) - snd (0, 0)) / 2) with 0.
  change (toRad (fst (0, 0))) with 0.
  change (toRad (fst (0, 5e-324))) with 0.
  rewrite Hsin, Hcos.
  change (0 * 0 + 1 * 1 * 0 * 0) with 0.
  change (Math_sqrt 0) with 0. change (Math_sqrt (1 - 0)) with 1.
  rewrite Hatan. reflexivity.
Qed.

End Calculate64.

Section Calculate64Example.

Import Ieee Binary64 Notions64.
Local Open Scope float_scope.

Let M : MathLibrary := Tables.library.
Existing Instance M.

Lemma lookup2_sign (table : list (float * float * float)) (y x : float) :
  forallb (fun entry => not_negative (snd entry)) table = true ->
  not_negative (Tables.lookup2 table y x) = true.
Proof.
  intros H. unfold Tables.lookup2.
  destruct (find _ table) as [entry |] eqn:E; [| reflexivity].
  apply find_some in E. destruct E as [Hin _].
  rewrite forallb_forall in H. exact (H entry Hin).
Qed.


(** The fallback result from Gullfoss to Geysir by bicycle: 11.7 km in 35
    minutes. *)
Example fallback_gullfoss_geysir :
  let r := calculateFallbackRoute [Tables.gullfoss; Tables.geysir] "cycling" in
  distance r = 11684.663338285471 /\ duration r = 2103.2394008913848.
Proof. cbv zeta. split; vm_compute; reflexivity. Qed.

(** The fallback result between the near-antipodal coordinates [[8, 0]]
    and [[-8, 180]]: distance and duration are [NaN]. *)
Example fallback_nan_near_antipodes :
  let r := calculateFallbackRoute [(8, 0); (-8, 180)] "driving" in
  isFallback r = true /\ distance r = nan /\ duration r = nan.
Proof. cbv zeta. repeat split; vm_compute; reflexivity. Qed.


End Calculate64Example.

Section FallbackSum64.

Import Spec Ieee Binary64 Notions64.
Local Open Scope float_scope.

Context {M : MathLibrary}.

Lemma consecutive_pairs_skipn {A : Type} (d : A) (l : list A) :
  forall i, (S i < List.length l)%nat ->
  consecutive_pairs (skipn i l) =
  (nth i l d, nth (S i) l d) :: consecutive_pairs (skipn (S i) l).
Proof.
  induction l as [| p t IH]; intros i Hi; simpl in Hi; [lia |].
  destruct i as [| i].
  - destruct t as [| q t']; simpl in Hi; [lia |]. reflexivity.
  - change (skipn (S i) (p :: t)) with (skipn i t).
    change (skipn (S (S i)) (p :: t)) with (skipn (S i) t).
    change (nth (S i) (p :: t) d) with (nth i t d).
    change (nth (S (S i)) (p :: t) d) with (nth (S i) t d).
    apply IH. lia.
Qed.

Lemma consecutive_pairs_short {A : Type} (l : list A) :
  (List.length l <= 1)%nat -> consecutive_pairs l = [].
Proof.
  destruct l as [| p [| q t]]; simpl; intros H; try reflexivity; lia.
Qed.

(** The loop adds the legs from index [i] on, in order, whenever the
    iteration bound covers the rest of the list. *)
Lemma fallback_loop_fold (waypoints : list LatLng) :
  forall fuel i totalDistance,
  (List.length waypoints <= fuel + i)%nat ->
  fallback_loop fuel waypoints i totalDistance =
  fold_left (fun total pq => total + haversineDistance (fst pq) (snd pq))
    (consecutive_pairs (skipn i waypoints)) totalDistance.
Proof.
  induction fuel as [| fuel IH]; intros i total Hfuel; simpl.
  - rewrite consecutive_pairs_short; [reflexivity |].
    rewrite length_skipn. lia.
  - destruct (Z.ltb_spec (Z.of_nat i) (Z.of_nat (List.length waypoints) - 1))
      as [Hlt | Hge].
    + rewrite IH by lia.
      rewrite (consecutive_pairs_skipn ((0, 0) : LatLng) waypoints i) by lia.
      reflexivity.
    + rewrite consecutive_pairs_short; [reflexivity |].
      rewrite length_skipn. lia.
Qed.

(** X2.  In binary64 arithmetic the fallback route follows the formula of
    its comments with the operations in the order of the source: the legs
    are added from left to right, the sum is multiplied by 1.3, and then
    by 1000 for the distance in meters, or divided by the average speed of
    the mode and multiplied by 3600 for the duration in seconds.  An
    unknown mode has the speed of driving. *)
Theorem fallback_route_formula_binary64 (waypoints : list LatLng)
    (mode : string) :
  let speed := match TransportModes mode with
               | Some m => avgSpeed m
               | None => 80
               end in
  distance (calculateFallbackRoute waypoints mode) =
    haversine_sum waypoints * 1.3 * 1000 /\
  duration (calculateFallbackRoute waypoints mode) =
    haversine_sum waypoints * 1.3 / speed * 3600.
Proof.
  cbv zeta. unfold calculateFallbackRoute, haversine_sum; cbv zeta; simpl.
  rewrite fallback_loop_fold by lia. simpl skipn.
  split; [reflexivity |].
  unfold TransportModes.
  destruct (mode =? "driving")%string; [reflexivity |].
  destruct (mode =? "cycling")%string; [reflexivity |].
  destruct (mode =? "walking")%string; reflexivity.
Qed.

End FallbackSum64.

(* ================================================================== *)
(** * Waypoint sequencer *)
(* ================================================================== *)

Section Sequencer.

Context {W : Type} (coords : W -> LatLng).

Lemma splice1_nth (l : list W) :
  forall k w, nth_error l k = Some w -> splice1 l k = ([w], remove_at k l).
Proof.
  induction l as [| x t IH]; intros [| k] w H; simpl in H; try discriminate.
  - injection H as ->. reflexivity.
  - simpl. rewrite (IH k w H). reflexivity.
Qed.

Lemma index_last (init : list W) (w : W) :
  index (init ++ [w]) (Z.of_nat (List.length (init ++ [w])) - 1) = Some w.
Proof.
  unfold index. rewrite length_app; simpl.
  destruct (Z.ltb_spec (Z.of_nat (List.length init + 1) - 1) 0) as [H | H]; [lia |].
  replace (Z.to_nat (Z.of_nat (List.length init + 1) - 1)) with (List.length init) by lia.
  rewrite nth_error_app2 by lia. rewrite Nat.sub_diag. reflexivity.
Qed.

Lemma filter_index_ne_past (l : list W) :
  forall i k, (k < Z.of_nat i)%Z -> filter_index_ne l i k = l.
Proof.
  induction l as [| x t IH]; intros i k Hik; simpl; [reflexivity |].
  destruct (Z.eqb_spec (Z.of_nat i) k) as [Heq | Hne]; [lia |].
  rewrite IH by lia. reflexivity.
Qed.

Lemma filter_index_ne_remove (l : list W) :
  forall i k, (Z.of_nat i <= k)%Z ->
  filter_index_ne l i k = remove_at (Z.to_nat k - i) l.
Proof.
  induction l as [| x t IH]; intros i k Hik; simpl.
  - unfold remove_at. now rewrite firstn_nil, skipn_nil.
  - destruct (Z.eqb_spec (Z.of_nat i) k) as [Heq | Hne].
    + rewrite filter_index_ne_past by lia.
      subst k. rewrite Nat2Z.id, Nat.sub_diag. reflexivity.
    + rewrite IH by lia.
      replace (Z.to_nat k - i)%nat with (S (Z.to_nat k - S i)) by lia.
      reflexivity.
Qed.

Lemma length_remove_at (l : list W) (k : nat) (w : W) :
  nth_error l k = Some w -> S (List.length (remove_at k l)) = List.length l.
Proof.
  intros H. assert (Hk : (k < List.length l)%nat).
  { apply nth_error_Some. congruence. }
  unfold remove_at. rewrite length_app, length_firstn, length_skipn. lia.
Qed.

Lemma scanned_step (current wp : W) (pre : list W) (ni : nat) (nd : option R) :
  scanned coords current pre ni nd ->
  let d := haversineDistance (coords current) (coords wp) in
  if lt_nearest d nd
  then scanned coords current (pre ++ [wp]) (List.length pre) (Some d)
  else scanned coords current (pre ++ [wp]) ni nd.
Proof.
  intros Hs d. unfold lt_nearest.
  destruct nd as [d0 |].
  - destruct Hs as (w & (Hnth & Hmin) & ->).
    assert (Hni : (ni < List.length pre)%nat).
    { apply nth_error_Some. congruence. }
    destruct (Rlt_dec d (dist coords current w)) as [Hlt | Hge].
    + exists wp. split; [| reflexivity]. split.
      * rewrite nth_error_app2, Nat.sub_diag by lia. reflexivity.
      * intros j v Hj. fold (dist coords current wp) in d.
        destruct (Nat.lt_ge_cases j (List.length pre)) as [Hjl | Hjg].
        -- rewrite nth_error_app1 in Hj by assumption.
           destruct (Hmin j v Hj) as [Hle _]. unfold d in Hlt. 
           change (haversineDistance (coords current) (coords wp))
             with (dist coords current wp) in Hlt.
           split; intros; lra.
        -- rewrite nth_error_app2 in Hj by assumption.
           destruct (j - List.length pre)%nat as [| n] eqn:E; simpl in Hj.
           ++ injection Hj as <-. split; [lra | lia].
           ++ destruct n; discriminate.
    + exists w. split; [| reflexivity]. split.
      * rewrite nth_error_app1 by assumption. exact Hnth.
      * intros j v Hj.
        destruct (Nat.lt_ge_cases j (List.length pre)) as [Hjl | Hjg].
        -- rewrite nth_error_app1 in Hj by assumption. exact (Hmin j v Hj).
        -- rewrite nth_error_app2 in Hj by assumption.
           destruct (j - List.length pre)%nat as [| n] eqn:E; simpl in Hj.
           ++ injection Hj as <-. unfold d in Hge.
              change (haversineDistance (coords current) (coords wp))
                with (dist coords current wp) in Hge.
              split; [lra | lia].
           ++ destruct n; discriminate.
  - simpl in Hs. subst pre. exists wp. split; [| reflexivity]. split.
    + reflexivity.
    + intros [| j] v Hj; simpl in Hj.
      * injection Hj as <-. split; [lra | simpl; lia].
      * destruct j; discriminate.
Qed.

Lemma nearest_scan_spec (current : W) (t : list W) :
  forall pre ni nd,
  scanned coords current pre ni nd ->
  pre ++ t <> [] ->
  exists w d,
    snd (nearest_scan coords current t (List.length pre) ni nd) = Some d /\
    nearest_first coords current (pre ++ t)
      (fst (nearest_scan coords current t (List.length pre) ni nd)) w.
Proof.
  induction t as [| wp t IH]; intros pre ni nd Hs Hne; simpl.
  - rewrite app_nil_r in *. destruct nd as [d |].
    + destruct Hs as (w & Hw & _). exists w, d. split; [reflexivity | exact Hw].
    + simpl in Hs. contradiction.
  - assert (Hstep := scanned_step current wp pre ni nd Hs). cbv zeta in Hstep.
    replace (pre ++ wp :: t) with ((pre ++ [wp]) ++ t)
      by (rewrite <- app_assoc; reflexivity).
    assert (Hlen : S (List.length pre) = List.length (pre ++ [wp])).
    { rewrite length_app; simpl; lia. }
    rewrite Hlen.
    destruct (lt_nearest _ nd); apply IH; try assumption;
      destruct pre; discriminate.
Qed.

Lemma nearest_scan_first (current : W) (remaining : list W) :
  remaining <> [] ->
  exists w,
    nearest_first coords current remaining
      (fst (nearest_scan coords current remaining 0 0 None)) w.
Proof.
  intros Hne.
  destruct (nearest_scan_spec current remaining [] 0%nat None eq_refl Hne)
    as (w & d & _ & H).
  exists w. exact H.
Qed.

Lemma optimize_loop_greedy :
  forall fuel init current remaining,
  (List.length remaining <= fuel)%nat ->
  exists out,
    optimize_loop coords fuel (init ++ [current]) remaining =
      Some (Ok ((init ++ [current]) ++ out)) /\
    greedy_from coords current remaining out.
Proof.
  induction fuel as [| fuel IH]; intros init current remaining Hfuel.
  - destruct remaining; simpl in Hfuel; [| lia].
    exists []. rewrite app_nil_r. split; [reflexivity | constructor].
  - destruct remaining as [| r0 rs].
    + exists []. rewrite app_nil_r. split; [reflexivity | constructor].
    + cbn [optimize_loop]. rewrite index_last.
      destruct (nearest_scan_first current (r0 :: rs)) as (w & Hw);
        [discriminate |].
      destruct (nearest_scan coords current (r0 :: rs) 0 0 None)
        as [nearestIndex nearestDistance] eqn:Escan.
      cbn [fst] in Hw. destruct Hw as [Hnth Hmin].
      rewrite (splice1_nth _ _ _ Hnth).
      assert (Hlen := length_remove_at _ _ _ Hnth).
      destruct (IH (init ++ [current]) w (remove_at nearestIndex (r0 :: rs)))
        as (out & Hloop & Hgreedy).
      { simpl in Hfuel, Hlen. lia. }
      exists (w :: out). split.
      * rewrite Hloop. rewrite <- !app_assoc. reflexivity.
      * econstructor; [split; eassumption | exact Hgreedy].
Qed.

Lemma index_nth_error (l : list W) (k : Z) (w : W) :
  index l k = Some w -> (0 <= k)%Z /\ nth_error l (Z.to_nat k) = Some w.
Proof.
  unfold index. destruct (Z.ltb_spec k 0); [discriminate |]. auto.
Qed.

Lemma optimize_greedy (waypoints : list W) (startIndex : Z) (start : W) :
  (2 < List.length waypoints)%nat ->
  index waypoints startIndex = Some start ->
  exists out,
    optimizeWaypointOrder coords waypoints startIndex = Some (Ok (start :: out)) /\
    greedy_from coords start (remove_at (Z.to_nat startIndex) waypoints) out.
Proof.
  intros Hlen Hidx. unfold optimizeWaypointOrder.
  destruct (Nat.leb_spec (List.length waypoints) 2) as [H | _]; [lia |].
  rewrite Hidx. destruct (index_nth_error _ _ _ Hidx) as [Hk Hnth].
  rewrite filter_index_ne_remove by (simpl; lia).
  rewrite Nat.sub_0_r.
  destruct (optimize_loop_greedy
              (List.length (remove_at (Z.to_nat startIndex) waypoints))
              [] start (remove_at (Z.to_nat startIndex) waypoints) (le_n _))
    as (out & Hloop & Hgreedy).
  exists out. split; [exact Hloop | exact Hgreedy].
Qed.

Lemma nearest_first_unique (current : W) (remaining : list W) (k k' : nat)
    (w w' : W) :
  nearest_first coords current remaining k w ->
  nearest_first coords current remaining k' w' ->
  k = k' /\ w = w'.
Proof.
  intros [Hk Hmin] [Hk' Hmin'].
  destruct (Hmin k' w' Hk') as [Hle Hlt].
  destruct (Hmin' k w Hk) as [Hle' Hlt'].
  assert (k = k').
  { destruct (Nat.lt_trichotomy k k') as [H | [H | H]]; [| assumption |].
    - specialize (Hlt' H). lra.
    - specialize (Hlt H). lra. }
  subst k'. split; [reflexivity | congruence].
Qed.

Lemma greedy_from_unique (current : W) (remaining out out' : list W) :
  greedy_from coords current remaining out ->
  greedy_from coords current remaining out' ->
  out = out'.
Proof.
  intros H. revert out'.
  induction H as [current | current remaining k w out Hn Hg IH]; intros out' H'.
  - inversion H' as [| ? ? k' w' ? [Hk' _] ?]; subst; [reflexivity |].
    destruct k'; discriminate.
  - inversion H' as [| ? ? k' w' o' Hn' Hg']; subst.
    + destruct Hn as [Hk _]. destruct k; discriminate.
    + destruct (nearest_first_unique _ _ _ _ _ _ Hn Hn') as [-> ->].
      f_equal. apply IH. exact Hg'.
Qed.

(** With more than two waypoints and [startIndex] off the list, the first
    [current.coordinates] throws. *)
Lemma optimize_out_of_range (waypoints : list W) (startIndex : Z) :
  (2 < List.length waypoints)%nat ->
  (startIndex < 0 \/ Z.of_nat (List.length waypoints) <= startIndex)%Z ->
  optimizeWaypointOrder coords waypoints startIndex = Some (Throw TypeError).
Proof.
  intros Hlen Hout. unfold optimizeWaypointOrder.
  destruct (Nat.leb_spec (List.length waypoints) 2); [lia |].
  unfold index. destruct (Z.ltb_spec startIndex 0) as [_ | Hge]; [reflexivity |].
  destruct (nth_error waypoints (Z.to_nat startIndex)) eqn:E; [| reflexivity].
  assert (Hlt : (Z.to_nat startIndex < List.length waypoints)%nat).
  { apply nth_error_Some. congruence. }
  lia.
Qed.

Lemma index_in_range (l : list W) (k : Z) :
  (0 <= k < Z.of_nat (List.length l))%Z -> exists w, index l k = Some w.
Proof.
  intros [Hl Hu]. unfold index.
  destruct (Z.ltb_spec k 0); [lia |].
  destruct (nth_error l (Z.to_nat k)) as [w |] eqn:E; [eauto |].
  apply nth_error_None in E. lia.
Qed.

End Sequencer.

Section SequencerExample.

Lemma dist_A_B :
  haversineDistance (App.coordinates Sample.A) (App.coordinates Sample.B) =
  6371 * toRad (1 - 0).
Proof. apply haversine_equator. lra. Qed.

Lemma dist_A_C :
  haversineDistance (App.coordinates Sample.A) (App.coordinates Sample.C) =
  6371 * toRad (3 - 0).
Proof. apply haversine_equator. lra. Qed.

Lemma optimize_ABC :
  optimizeWaypointOrder App.coordinates [Sample.A; Sample.B; Sample.C] 0 = Some (Ok [Sample.A; Sample.B; Sample.C]).
Proof.
  assert (Hle : haversineDistance (App.coordinates Sample.A) (App.coordinates Sample.B) <=
                haversineDistance (App.coordinates Sample.A) (App.coordinates Sample.C)).
  { rewrite dist_A_B, dist_A_C. unfold toRad. generalize PI_RGT_0. lra. }
  unfold optimizeWaypointOrder.
  cbn [List.length Nat.leb index Z.ltb Z.compare Z.to_nat nth_error
       filter_index_ne Z.of_nat Z.eqb Pos.of_succ_nat Pos.succ].
  cbn [optimize_loop List.length Z.of_nat Pos.of_succ_nat Z.sub Z.add Z.opp
       Z.pos_sub index Z.ltb Z.compare Z.to_nat nth_error].
  cbn [nearest_scan lt_nearest].
  destruct (Rlt_dec _ _) as [Hlt | _]; [lra |].
  cbn [splice1 app].
  cbn [optimize_loop List.length Z.of_nat Pos.of_succ_nat Pos.succ Z.sub Z.add Z.opp
       Z.pos_sub Pos.pred_double index Z.ltb Z.compare Z.to_nat Pos.to_nat Pos.iter_op Nat.add nth_error nearest_scan lt_nearest splice1 app].
  reflexivity.
Qed.

End SequencerExample.



(** C6.  For every waypoint list of length 2 or fewer and every
    [startIndex], [optimizeWaypointOrder] returns its input unchanged. *)
Theorem optimize_short_identity {W : Type} (coords : W -> LatLng)
    (waypoints : list W) (startIndex : Z) :
  (List.length waypoints <= 2)%nat ->
  optimizeWaypointOrder coords waypoints startIndex = Some (Ok waypoints).
Proof.
  intros H. unfold optimizeWaypointOrder.
  destruct (Nat.leb_spec (List.length waypoints) 2); [reflexivity | lia].
Qed.

Lemma optimize_short_identity_witness :
  (List.length [Sample.B; Sample.A] <= 2)%nat /\
  optimizeWaypointOrder App.coordinates [Sample.B; Sample.A] 7 =
    Some (Ok [Sample.B; Sample.A]).
Proof.
  split; [simpl; lia |].
  apply (optimize_short_identity App.coordinates [Sample.B; Sample.A] 7).
  simpl; lia.
Defined.

(* ================================================================== *)
(** * Route aggregate *)
(* ================================================================== *)

Section Aggregate.

Import App.

Lemma beginRoute_ok (coords : list LatLng) (mode : string) :
  (2 <= List.length coords)%nat ->
  beginRoute (Some coords) mode = Ok (buildRequest coords mode).
Proof.
  intros H. unfold beginRoute.
  destruct (Nat.ltb_spec (List.length coords) 2); [lia | reflexivity].
Qed.

(** Below two waypoints [updateRouteOnMap] is synchronous: the whole
    resulting state. *)
Lemma updateRouteOnMap_below_two (s : State) :
  (List.length (waypoints (currentRoute s)) < 2)%nat ->
  updateRouteOnMap s =
    mkState
      (mkRoute (waypoints (currentRoute s)) 0 0 (geometry (currentRoute s))
         (transportMode (currentRoute s)))
      (MapManager.clearRoute
         (MapManager.updateWaypointMarkers (map s)
            (List.map marker_input (waypoints (currentRoute s)))))
      0 0 (statsHidden s) (saveDisabled s) (loadingHidden s) (toasts s)
      (requests s) (pending s).
Proof.
  intros H. unfold updateRouteOnMap; cbv zeta.
  cbn [set_map currentRoute waypoints].
  destruct (Nat.ltb_spec (List.length (waypoints (currentRoute s))) 2); [| lia].
  reflexivity.
Qed.

(** From two waypoints on it sends one request and suspends. *)
Lemma updateRouteOnMap_ready (s : State) :
  (2 <= List.length (waypoints (currentRoute s)))%nat ->
  let coords := List.map coordinates (waypoints (currentRoute s)) in
  let mode := transportMode (currentRoute s) in
  updateRouteOnMap s =
    mkState (currentRoute s)
      (MapManager.updateWaypointMarkers (map s)
         (List.map marker_input (waypoints (currentRoute s))))
      (shown_distance s) (shown_duration s) (statsHidden s) (saveDisabled s)
      false (toasts s)
      (requests s ++ [buildRequest coords mode])
      (pending s ++ [mkPending coords mode]).
Proof.
  intros H. cbv zeta. unfold updateRouteOnMap; cbv zeta.
  cbn [set_map currentRoute waypoints].
  destruct (Nat.ltb_spec (List.length (waypoints (currentRoute s))) 2); [lia |].
  cbn [set_loadingHidden currentRoute].
  rewrite beginRoute_ok by (rewrite length_map; assumption).
  reflexivity.
Qed.

Lemma updateRouteOnMap_waypoints (s : State) :
  waypoints (currentRoute (updateRouteOnMap s)) = waypoints (currentRoute s).
Proof.
  destruct (Nat.lt_ge_cases (List.length (waypoints (currentRoute s))) 2)
    as [H | H].
  - rewrite updateRouteOnMap_below_two by assumption. reflexivity.
  - rewrite updateRouteOnMap_ready by assumption. reflexivity.
Qed.

Lemma splice1_snd {A : Type} (l : list A) :
  forall k, snd (splice1 l k) = remove_at k l.
Proof.
  induction l as [| x t IH]; intros [| k]; try reflexivity.
  simpl. specialize (IH k). destruct (splice1 t k) as [removed rest].
  simpl in IH. subst rest. reflexivity.
Qed.

(** C7, on the code.  Removing a waypoint so that fewer than two remain
    resets the route's distance and duration to 0, shows 0 in the stats,
    removes the route line from the map and sends no request; the route's
    stored geometry is left as it was. *)
Theorem removeWaypoint_below_two (s : State) (index : nat) :
  (List.length (snd (splice1 (waypoints (currentRoute s)) index)) < 2)%nat ->
  let s' := removeWaypoint s index in
  waypoints (currentRoute s') = snd (splice1 (waypoints (currentRoute s)) index) /\
  distance (currentRoute s') = 0 /\
  duration (currentRoute s') = 0 /\
  shown s' = (0, 0) /\
  MapManager.routeLine (map s') = None /\
  requests s' = requests s /\ pending s' = pending s /\
  geometry (currentRoute s') = geometry (currentRoute s).
Proof.
  intros H. cbv zeta. unfold removeWaypoint; cbv zeta.
  rewrite updateRouteOnMap_below_two by exact H.
  cbn. repeat split; reflexivity.
Qed.

Lemma removeWaypoint_below_two_witness :
  let s := Sample.computed in
  (List.length (snd (splice1 (waypoints (currentRoute s)) 0)) < 2)%nat /\
  (let s' := removeWaypoint s 0 in
   waypoints (currentRoute s') = snd (splice1 (waypoints (currentRoute s)) 0) /\
   distance (currentRoute s') = 0 /\
   duration (currentRoute s') = 0 /\
   shown s' = (0, 0) /\
   MapManager.routeLine (map s') = None /\
   requests s' = requests s /\ pending s' = pending s /\
   geometry (currentRoute s') = geometry (currentRoute s)).
Proof.
  cbv zeta. split; [simpl; lia |].
  apply (removeWaypoint_below_two Sample.computed 0). simpl; lia.
Defined.

(** The route of [Sample.computed] holds the geometry the service sent;
    after removing one of its two waypoints the route still holds that
    geometry, where [clearRoute] resets it to [null]. *)
Example removeWaypoint_stale_geometry :
  let s' := removeWaypoint Sample.computed 0 in
  List.length (waypoints (currentRoute s')) = 1%nat /\
  distance (currentRoute s') = 0 /\
  duration (currentRoute s') = 0 /\
  geometry (currentRoute s') = Some Sample.line /\
  geometry (currentRoute s') <> None /\
  geometry (currentRoute (clearRoute Sample.computed)) = None.
Proof.
  cbv zeta. repeat (split; [reflexivity |]).
  split; [discriminate | reflexivity].
Qed.

(** C8.  For every route state, [clearRoute] resets the route to the empty
    one (no waypoints, distance 0, duration 0, no geometry) and leaves the
    transport mode as it was. *)
Theorem clearRoute_resets (s : State) :
  currentRoute (clearRoute s) = emptyRoute (transportMode (currentRoute s)) /\
  waypoints (currentRoute (clearRoute s)) = [] /\
  distance (currentRoute (clearRoute s)) = 0 /\
  duration (currentRoute (clearRoute s)) = 0 /\
  geometry (currentRoute (clearRoute s)) = None /\
  transportMode (currentRoute (clearRoute s)) = transportMode (currentRoute s).
Proof. repeat split; reflexivity. Qed.

Lemma existsb_id_In (poiId : string) (wps : list Waypoint) :
  existsb (fun wp => String.eqb (id wp) poiId) wps = true <->
  In poiId (List.map id wps).
Proof.
  rewrite existsb_exists, in_map_iff. split.
  - intros (wp & Hin & Heq). apply String.eqb_eq in Heq. eauto.
  - intros (wp & Heq & Hin). exists wp. split; [assumption |].
    apply String.eqb_eq. assumption.
Qed.

Lemma getPoiById_id (pois : list Poi) (poiId : string) (poi : Poi) :
  getPoiById pois poiId = Some poi -> poi_id poi = poiId.
Proof.
  unfold getPoiById. intros H. apply find_some in H. destruct H as [_ H].
  apply String.eqb_eq. exact H.
Qed.

Section Add.

Variable pois : list Poi.
Variable categories : list Category.

Lemma addWaypoint_present (s : State) (poiId : string) :
  In poiId (route_ids s) ->
  addWaypointFromPOI pois categories s poiId =
    match getPoiById pois poiId with
    | Some _ => showToast s "Este punto ya está en la ruta" "info"
    | None => s
    end.
Proof.
  intros Hin. unfold addWaypointFromPOI.
  destruct (getPoiById pois poiId) as [poi |]; [| reflexivity].
  apply existsb_id_In in Hin. unfold route_ids in Hin. rewrite Hin. reflexivity.
Qed.

(** An add leaves the identifiers as they were, or appends one that was
    not there. *)
Lemma addWaypoint_ids (s : State) (poiId : string) :
  route_ids (addWaypointFromPOI pois categories s poiId) = route_ids s \/
  (~ In poiId (route_ids s) /\
   route_ids (addWaypointFromPOI pois categories s poiId) =
     route_ids s ++ [poiId]).
Proof.
  unfold addWaypointFromPOI.
  destruct (getPoiById pois poiId) as [poi |] eqn:Epoi; [| left; reflexivity].
  destruct (existsb _ _) eqn:Eex; [left; reflexivity |].
  right. split.
  - intros Hin. apply existsb_id_In in Hin. unfold route_ids in Eex.
    congruence.
  - unfold route_ids. cbn [showToast currentRoute].
    rewrite updateRouteOnMap_waypoints. cbn.
    rewrite map_app. cbn. rewrite (getPoiById_id _ _ _ Epoi). reflexivity.
Qed.

Lemma addWaypoint_unique (s : State) (poiId : string) :
  NoDup (route_ids s) ->
  NoDup (route_ids (addWaypointFromPOI pois categories s poiId)).
Proof.
  intros Hnd. destruct (addWaypoint_ids s poiId) as [-> | [Hnin ->]];
    [assumption |].
  apply NoDup_app; [assumption | repeat constructor; intros [] |].
  intros x Hx [<- | []]. contradiction.
Qed.

(** C9.  When the route already holds a waypoint with the identifier,
    adding it again leaves the waypoint list, and all of the route, the map
    and the requests, unchanged: at most the notification is shown (it is,
    when the catalog has the POI).  Every add keeps the identifiers of the
    route pairwise distinct. *)
Theorem addWaypoint_duplicate_noop (s : State) (poiId : string) :
  (In poiId (route_ids s) ->
   let s' := addWaypointFromPOI pois categories s poiId in
   waypoints (currentRoute s') = waypoints (currentRoute s) /\
   currentRoute s' = currentRoute s /\
   map s' = map s /\ requests s' = requests s /\ pending s' = pending s /\
   shown s' = shown s /\
   toasts s' =
     match getPoiById pois poiId with
     | Some _ =>
         toasts s ++ [("Este punto ya está en la ruta"%string, "info"%string)]
     | None => toasts s
     end) /\
  (NoDup (route_ids s) ->
   NoDup (route_ids (addWaypointFromPOI pois categories s poiId))).
Proof.
  split.
  - intros Hin. cbv zeta. rewrite (addWaypoint_present s poiId Hin).
    destruct (getPoiById pois poiId); repeat split; reflexivity.
  - apply addWaypoint_unique.
Qed.

Lemma remove_at_In {A : Type} (l : list A) :
  forall (k : nat) (x : A), In x (remove_at k l) -> In x l.
Proof.
  induction l as [| a t IH]; intros k x.
  - unfold remove_at. rewrite firstn_nil, skipn_nil. intros [].
  - destruct k as [| k].
    + intros H. right. exact H.
    + change (remove_at (S k) (a :: t)) with (a :: remove_at k t).
      intros [-> | H]; [left; reflexivity | right; eapply IH; exact H].
Qed.

Lemma remove_at_NoDup (l : list string) :
  forall k, NoDup l -> NoDup (remove_at k l).
Proof.
  induction l as [| x t IH]; intros k Hnd.
  - unfold remove_at. rewrite firstn_nil, skipn_nil. constructor.
  - inversion Hnd as [| ? ? Hx Ht]; subst. destruct k as [| k].
    + exact Ht.
    + change (remove_at (S k) (x :: t)) with (x :: remove_at k t).
      constructor; [| apply IH; exact Ht].
      intros Hin. apply Hx. eapply remove_at_In; eassumption.
Qed.

Lemma remove_at_map {A B : Type} (f : A -> B) (l : list A) (k : nat) :
  List.map f (remove_at k l) = remove_at k (List.map f l).
Proof.
  unfold remove_at. now rewrite map_app, firstn_map, skipn_map.
Qed.

Lemma step_unique (s : State) (e : Event) :
  NoDup (route_ids s) -> NoDup (route_ids (step pois categories s e)).
Proof.
  intros Hnd. destruct e as [poiId | index | mode | | k o]; simpl.
  - apply addWaypoint_unique. exact Hnd.
  - unfold route_ids, removeWaypoint; cbv zeta.
    rewrite updateRouteOnMap_waypoints. cbn.
    rewrite splice1_snd, remove_at_map. apply remove_at_NoDup. exact Hnd.
  - unfold route_ids, setTransportMode; cbv zeta.
    cbn [set_route currentRoute waypoints].
    destruct (2 <=? _)%nat; [rewrite updateRouteOnMap_waypoints |]; exact Hnd.
  - constructor.
  - unfold route_ids, completeRoute.
    destruct (nth_error (pending s) k) as [p |]; [| exact Hnd].
    cbv zeta. destruct (Routing.geometry _); exact Hnd.
Qed.

(** Identifiers are pairwise distinct in every state the events lead to
    from the constructor's state. *)
Lemma run_unique (es : list Event) :
  NoDup (route_ids (run pois categories initial es)).
Proof.
  unfold run.
  assert (H : forall s, NoDup (route_ids s) ->
                NoDup (route_ids (fold_left (step pois categories) es s))).
  { induction es as [| e es IH]; intros s Hs; simpl; [exact Hs |].
    apply IH, step_unique, Hs. }
  apply H. constructor.
Qed.

End Add.

Lemma addWaypoint_duplicate_noop_witness :
  let s := Sample.two_stops in
  In "gullfoss"%string (route_ids s) /\
  NoDup (route_ids s) /\
  ((In "gullfoss"%string (route_ids s) ->
    let s' := addWaypointFromPOI Sample.pois Sample.categories s "gullfoss" in
    waypoints (currentRoute s') = waypoints (currentRoute s) /\
    currentRoute s' = currentRoute s /\
    map s' = map s /\ requests s' = requests s /\ pending s' = pending s /\
    shown s' = shown s /\
    toasts s' =
      match getPoiById Sample.pois "gullfoss" with
      | Some _ =>
          toasts s ++ [("Este punto ya está en la ruta"%string, "info"%string)]
      | None => toasts s
      end) /\
   (NoDup (route_ids s) ->
    NoDup (route_ids
             (addWaypointFromPOI Sample.pois Sample.categories s "gullfoss")))).
Proof.
  cbv zeta. split; [left; reflexivity |]. split.
  - apply (run_unique Sample.pois Sample.categories).
  - exact (addWaypoint_duplicate_noop Sample.pois Sample.categories
             Sample.two_stops "gullfoss").
Defined.

End Aggregate.

(* ================================================================== *)
(** * Mode change while a request is in flight *)
(* ================================================================== *)

Section Race.

Import App.

(** What the settling of the [k]-th suspended call writes. *)
Lemma completeRoute_effect (s : State) (k : nat) (o : FetchOutcome)
    (p : Pending) :
  nth_error (pending s) k = Some p ->
  let routeData := resumeRoute (pend_coordinates p) (pend_mode p) o in
  shown (completeRoute s k o) = stats_of routeData /\
  distance (currentRoute (completeRoute s k o)) = Routing.distance routeData /\
  duration (currentRoute (completeRoute s k o)) = Routing.duration routeData /\
  geometry (currentRoute (completeRoute s k o)) = Routing.geometry routeData /\
  waypoints (currentRoute (completeRoute s k o)) = waypoints (currentRoute s) /\
  transportMode (currentRoute (completeRoute s k o)) =
    transportMode (currentRoute s) /\
  pending (completeRoute s k o) = remove_at k (pending s).
Proof.
  intros Hk. cbv zeta. unfold completeRoute. rewrite Hk. cbv zeta.
  destruct (Routing.geometry (resumeRoute (pend_coordinates p) (pend_mode p) o));
    cbn; rewrite ?splice1_snd; repeat split; reflexivity.
Qed.

Lemma setTransportMode_ready (s : State) (mode : string) :
  (2 <= List.length (waypoints (currentRoute s)))%nat ->
  transportMode (currentRoute (setTransportMode s mode)) = mode /\
  pending (setTransportMode s mode) =
    pending s ++
    [mkPending (List.map coordinates (waypoints (currentRoute s))) mode].
Proof.
  intros Hlen. unfold setTransportMode; cbv zeta.
  cbn [set_route currentRoute waypoints].
  destruct (Nat.leb_spec 2 (List.length (waypoints (currentRoute s)))); [| lia].
  rewrite updateRouteOnMap_ready by (cbn; assumption).
  split; reflexivity.
Qed.

(** C10, as amended.  When the mode is changed while one computation is in
    flight, a second computation is issued for the new mode, and the stats
    finally displayed are those of the computation that settles last: the
    new mode's when the two settle in the order of issue, the superseded
    one's when the superseded computation settles after the new one. *)
Theorem mode_change_last_completion_wins (s : State) (mode : string)
    (old : Pending) (o_old o_new : FetchOutcome) :
  (2 <= List.length (waypoints (currentRoute s)))%nat ->
  pending s = [old] ->
  let s1 := setTransportMode s mode in
  let coords := List.map coordinates (waypoints (currentRoute s)) in
  let fresh := resumeRoute coords mode o_new in
  let stale := resumeRoute (pend_coordinates old) (pend_mode old) o_old in
  transportMode (currentRoute s1) = mode /\
  pending s1 = [old; mkPending coords mode] /\
  shown (completeRoute (completeRoute s1 0 o_old) 0 o_new) = stats_of fresh /\
  shown (completeRoute (completeRoute s1 1 o_new) 0 o_old) = stats_of stale.
Proof.
  intros Hlen Hpend. cbv zeta.
  destruct (setTransportMode_ready s mode Hlen) as [Hmode Hp1].
  rewrite Hpend in Hp1. cbn [app] in Hp1.
  split; [exact Hmode |]. split; [exact Hp1 |].
  set (s1 := setTransportMode s mode) in *.
  set (new := mkPending (List.map coordinates (waypoints (currentRoute s))) mode)
    in *.
  split.
  - destruct (completeRoute_effect s1 0 o_old old)
      as (_ & _ & _ & _ & _ & _ & Hp); [rewrite Hp1; reflexivity |].
    rewrite Hp1 in Hp. cbn in Hp.
    destruct (completeRoute_effect (completeRoute s1 0 o_old) 0 o_new new)
      as (Hshown & _); [rewrite Hp; reflexivity |].
    exact Hshown.
  - destruct (completeRoute_effect s1 1 o_new new)
      as (_ & _ & _ & _ & _ & _ & Hp); [rewrite Hp1; reflexivity |].
    rewrite Hp1 in Hp. cbn in Hp.
    destruct (completeRoute_effect (completeRoute s1 1 o_new) 0 o_old old)
      as (Hshown & _); [rewrite Hp; reflexivity |].
    exact Hshown.
Qed.

Lemma mode_change_last_completion_wins_witness :
  let s := Sample.two_stops in
  let coords := List.map coordinates (waypoints (currentRoute s)) in
  let old := mkPending coords "driving" in
  let o_old := Sample.response 1000 60 in
  let o_new := Sample.response 900 700 in
  (2 <= List.length (waypoints (currentRoute s)))%nat /\
  pending s = [old] /\
  (let s1 := setTransportMode s "walking" in
   let fresh := resumeRoute coords "walking" o_new in
   let stale := resumeRoute (pend_coordinates old) (pend_mode old) o_old in
   transportMode (currentRoute s1) = "walking"%string /\
   pending s1 = [old; mkPending coords "walking"] /\
   shown (completeRoute (completeRoute s1 0 o_old) 0 o_new) = stats_of fresh /\
   shown (completeRoute (completeRoute s1 1 o_new) 0 o_old) = stats_of stale).
Proof.
  cbv zeta. split; [simpl; lia |]. split; [reflexivity |].
  apply (mode_change_last_completion_wins Sample.two_stops "walking"
           (mkPending
              (List.map coordinates (waypoints (currentRoute Sample.two_stops)))
              "driving")
           (Sample.response 1000 60) (Sample.response 900 700)).
  - simpl; lia.
  - reflexivity.
Defined.

(** C10 as stated fails: with a driving computation in flight the mode is
    set to walking; the walking response (900 m, 700 s) arrives first, the
    driving response (1000 m, 60 s) last.  The route is in walking mode and
    the stats show the driving result. *)
Lemma stale_result_displayed :
  let s := Sample.two_stops in
  let coords := [poi_coordinates Sample.gullfoss; poi_coordinates Sample.geysir] in
  let s1 := setTransportMode s "walking" in
  let final := completeRoute (completeRoute s1 1 (Sample.response 900 700)) 0
                 (Sample.response 1000 60) in
  transportMode (currentRoute s) = "driving"%string /\
  pending s = [mkPending coords "driving"] /\
  pending s1 = [mkPending coords "driving"; mkPending coords "walking"] /\
  pending final = [] /\
  transportMode (currentRoute final) = "walking"%string /\
  stats_of (resumeRoute coords "walking" (Sample.response 900 700)) = (900, 700) /\
  shown final = (1000, 60) /\
  shown final <> stats_of (resumeRoute coords "walking" (Sample.response 900 700)).
Proof.
  cbv zeta.
  repeat (split; [reflexivity |]).
  intros H. apply (f_equal fst) in H. cbn in H. lra.
Qed.

End Race.

(* ================================================================== *)
(** * More on the route calculator *)
(* ================================================================== *)

Section RouteFacts.

(** X3.  A mode that has no entry in [TransportModes] is treated as
    driving by the calculator: same request, same fallback route, same
    result for every outcome of the request. *)
Theorem unknown_mode_is_driving (wps : list LatLng) (mode : string)
    (o : FetchOutcome) :
  TransportModes mode = None ->
  buildRequest wps mode = buildRequest wps "driving" /\
  calculateFallbackRoute wps mode = calculateFallbackRoute wps "driving" /\
  resumeRoute wps mode o = resumeRoute wps "driving" o.
Proof.
  intros Hm.
  assert (Hfb : calculateFallbackRoute wps mode = calculateFallbackRoute wps "driving").
  { unfold calculateFallbackRoute. rewrite Hm. simpl. unfold num_or.
    destruct (Req_dec_T 80 0); [exfalso; lra | reflexivity]. }
  split; [unfold buildRequest; rewrite Hm; reflexivity |].
  split; [exact Hfb |].
  unfold resumeRoute. rewrite Hfb. reflexivity.
Qed.

Lemma unknown_mode_is_driving_witness :
  let wps : list LatLng := [(64.3271, -20.1199); (64.3104, -20.3024)] in
  TransportModes "flying" = None /\
  (buildRequest wps "flying" = buildRequest wps "driving" /\
   calculateFallbackRoute wps "flying" = calculateFallbackRoute wps "driving" /\
   resumeRoute wps "flying" NetworkError = resumeRoute wps "driving" NetworkError).
Proof.
  cbv zeta. split; [reflexivity |].
  apply unknown_mode_is_driving. reflexivity.
Defined.

Lemma name_points_locations (wps : list LatLng) :
  forall i, map location (name_points wps i) = wps.
Proof.
  induction wps as [| wp t IH]; intros i; simpl; [reflexivity |].
  now rewrite IH.
Qed.

Lemma name_points_nth (wps : list LatLng) :
  forall i k wp, nth_error wps k = Some wp ->
  nth_error (name_points wps i) k =
    Some (mkRoutePoint ("Punto " ++ nat_to_string (i + k + 1)) wp).
Proof.
  induction wps as [| a t IH]; intros i [| k] wp H; simpl in H; try discriminate.
  - injection H as ->. simpl. now rewrite Nat.add_0_r.
  - simpl. rewrite (IH (S i) k wp H).
    replace (S i + k + 1)%nat with (i + S k + 1)%nat by lia. reflexivity.
Qed.

(** X4.  The fallback result gives back every input coordinate, unchanged
    and in order: as the locations of waypoints named "Punto 1", "Punto 2",
    ..., and, longitude first, as the positions of a LineString that are
    also the coordinates of the request; it has no legs. *)
Theorem fallback_keeps_waypoints (wps : list LatLng) (mode : string) :
  let r := calculateFallbackRoute wps mode in
  map location (waypoints r) = wps /\
  (forall k wp, nth_error wps k = Some wp ->
     nth_error (waypoints r) k =
       Some (mkRoutePoint ("Punto " ++ nat_to_string (k + 1)) wp)) /\
  (exists g, geometry r = Some g /\
     gtype g = "LineString"%string /\
     map (fun c => (snd c, fst c)) (coordinates g) = wps /\
     coordinates g = req_coordinates (buildRequest wps mode)) /\
  legs r = [].
Proof.
  cbv zeta. unfold calculateFallbackRoute; cbv zeta; simpl.
  split; [apply name_points_locations |]. split.
  - intros k wp H. rewrite (name_points_nth wps 0 k wp H). reflexivity.
  - split; [| reflexivity]. eexists. split; [reflexivity |]. simpl.
    split; [reflexivity |]. split; [| reflexivity].
    rewrite map_map. rewrite <- (map_id wps) at 2.
    apply map_ext. intros [a b]. reflexivity.
Qed.

Lemma fallback_keeps_waypoints_witness :
  let wps : list LatLng := [(64.3271, -20.1199); (64.3104, -20.3024)] in
  let r := calculateFallbackRoute wps "cycling" in
  nth_error wps 1 = Some (64.3104, -20.3024) /\
  nth_error (waypoints r) 1 = Some (mkRoutePoint "Punto 2" (64.3104, -20.3024)).
Proof.
  cbv zeta. split; [reflexivity |].
  exact (proj1 (proj2 (fallback_keeps_waypoints
                         [(64.3271, -20.1199); (64.3104, -20.3024)] "cycling"))
           1%nat (64.3104, -20.3024) eq_refl).
Defined.

End RouteFacts.

(* ================================================================== *)
(** * More on the waypoint sequencer *)
(* ================================================================== *)

Section SequencerFacts.

Context {W : Type} (coords : W -> LatLng).

Lemma remove_at_perm (l : list W) :
  forall k w, nth_error l k = Some w -> Permutation (w :: remove_at k l) l.
Proof.
  induction l as [| x t IH]; intros [| k] w H; simpl in H; try discriminate.
  - injection H as ->. apply Permutation_refl.
  - change (remove_at (S k) (x :: t)) with (x :: remove_at k t).
    eapply perm_trans; [apply perm_swap |].
    apply perm_skip. apply IH. exact H.
Qed.

Lemma greedy_from_perm (current : W) (remaining out : list W) :
  greedy_from coords current remaining out -> Permutation out remaining.
Proof.
  induction 1 as [current | current remaining k w out [Hnth _] _ IH].
  - constructor.
  - eapply perm_trans; [apply perm_skip; exact IH |].
    apply remove_at_perm. exact Hnth.
Qed.

(** X5.  For every waypoint list and every in-range [startIndex],
    [optimizeWaypointOrder] returns a permutation of its input: no waypoint
    is dropped or repeated. *)
Theorem optimize_is_permutation (waypoints : list W) (startIndex : Z) :
  (0 <= startIndex < Z.of_nat (List.length waypoints))%Z ->
  exists out,
    optimizeWaypointOrder coords waypoints startIndex = Some (Ok out) /\
    Permutation out waypoints /\
    List.length out = List.length waypoints.
Proof.
  intros Hrange.
  destruct (Nat.le_gt_cases (List.length waypoints) 2) as [Hshort | Hlong].
  - exists waypoints. unfold optimizeWaypointOrder.
    destruct (Nat.leb_spec (List.length waypoints) 2); [| lia].
    repeat split. apply Permutation_refl.
  - destruct (index_in_range waypoints startIndex Hrange) as [start Hstart].
    destruct (optimize_greedy coords waypoints startIndex start Hlong Hstart)
      as (out & Hrun & Hgreedy).
    exists (start :: out). split; [exact Hrun |].
    assert (Hperm : Permutation (start :: out) waypoints).
    { eapply perm_trans; [apply perm_skip, (greedy_from_perm _ _ _ Hgreedy) |].
      apply remove_at_perm.
      destruct (index_nth_error _ _ _ Hstart) as [_ H]. exact H. }
    split; [exact Hperm | apply Permutation_length; exact Hperm].
Qed.

End SequencerFacts.

Lemma optimize_is_permutation_witness :
  let stops := [Sample.C; Sample.A; Sample.B] in
  (0 <= 2 < Z.of_nat (List.length stops))%Z /\
  exists out,
    optimizeWaypointOrder App.coordinates stops 2 = Some (Ok out) /\
    Permutation out stops /\
    List.length out = List.length stops.
Proof.
  cbv zeta. split; [simpl; lia |].
  apply (optimize_is_permutation App.coordinates
           [Sample.C; Sample.A; Sample.B] 2).
  simpl; lia.
Defined.

(* ================================================================== *)
(** * The catalog and its counts *)
(* ================================================================== *)

Section KeyedData.

Import JsData.

Context {V : Type}.

Lemma assoc_get_set_same (m : list (string * V)) (k : string) (v : V) :
  assoc_get (assoc_set m k v) k = Some v.
Proof.
  induction m as [| [k' v'] t IH]; simpl.
  - now rewrite String.eqb_refl.
  - destruct (String.eqb_spec k' k) as [-> | Hne]; simpl.
    + now rewrite String.eqb_refl.
    + destruct (String.eqb_spec k' k); [contradiction | exact IH].
Qed.

Lemma assoc_get_set_other (m : list (string * V)) (k k' : string) (v : V) :
  k <> k' -> assoc_get (assoc_set m k v) k' = assoc_get m k'.
Proof.
  intros Hne. induction m as [| [k0 v0] t IH]; simpl.
  - destruct (String.eqb_spec k k'); [contradiction | reflexivity].
  - destruct (String.eqb_spec k0 k) as [-> | Hk]; simpl.
    + destruct (String.eqb_spec k k'); [contradiction | reflexivity].
    + destruct (String.eqb_spec k0 k'); [reflexivity | exact IH].
Qed.

Lemma assoc_get_delete_same (m : list (string * V)) (k : string) :
  assoc_get (assoc_delete m k) k = None.
Proof.
  induction m as [| [k' v'] t IH]; simpl; [reflexivity |].
  destruct (String.eqb_spec k' k) as [-> | Hne]; [exact IH |].
  simpl. destruct (String.eqb_spec k' k); [contradiction | exact IH].
Qed.

Lemma assoc_get_delete_other (m : list (string * V)) (k k' : string) :
  k <> k' -> assoc_get (assoc_delete m k) k' = assoc_get m k'.
Proof.
  intros Hne. induction m as [| [k0 v0] t IH]; simpl; [reflexivity |].
  destruct (String.eqb_spec k0 k) as [-> | Hk]; simpl.
  - destruct (String.eqb_spec k k'); [contradiction | exact IH].
  - destruct (String.eqb_spec k0 k'); [reflexivity | exact IH].
Qed.

End KeyedData.

Section CatalogFacts.

Import JsData PoiQueries Notions.

Variable pois : list Poi.
Variable categories : list Category.


(** X6.  [getPoiById] finds nothing exactly when no POI has the
    identifier; what it finds is a POI of the catalog with that identifier;
    and when identifiers are pairwise distinct, looking up the identifier of
    a catalog POI gives back that POI. *)
Theorem getPoiById_lookup (poiId : string) :
  (getPoiById pois poiId = None <-> ~ In poiId (map poi_id pois)) /\
  (forall poi, getPoiById pois poiId = Some poi ->
     In poi pois /\ poi_id poi = poiId) /\
  (NoDup (map poi_id pois) ->
   forall poi, In poi pois -> getPoiById pois (poi_id poi) = Some poi).
Proof.
  unfold getPoiById. split; [| split].
  - split.
    + intros Hnone Hin. apply in_map_iff in Hin. destruct Hin as (poi & Hid & Hin).
      apply (find_none _ _ Hnone) in Hin. rewrite Hid, String.eqb_refl in Hin.
      discriminate.
    + intros Hnin. destruct (find _ pois) as [poi |] eqn:E; [| reflexivity].
      apply find_some in E. destruct E as [Hin Heq]. apply String.eqb_eq in Heq.
      exfalso. apply Hnin. rewrite <- Heq. apply in_map. exact Hin.
  - intros poi H. apply find_some in H. destruct H as [Hin Heq].
    apply String.eqb_eq in Heq. auto.
  - clear poiId. induction pois as [| p t IH]; intros Hnd poi Hin; [contradiction |].
    simpl in Hnd. inversion Hnd as [| ? ? Hp Ht]; subst. simpl.
    destruct Hin as [-> | Hin]; [now rewrite String.eqb_refl |].
    destruct (String.eqb_spec (poi_id p) (poi_id poi)) as [Heq | Hne].
    + exfalso. apply Hp. rewrite Heq. apply in_map. exact Hin.
    + apply IH; assumption.
Qed.

Lemma counts_fold (cats : list Category) :
  forall (counts : list (string * nat)) (c : string),
  assoc_get
    (fold_left
       (fun counts cat =>
          assoc_set counts (cat_id cat)
            (List.length
               (filter (fun poi => String.eqb (poi_category poi) (cat_id cat)) pois)))
       cats counts) c =
  if existsb (fun cat => String.eqb (cat_id cat) c) cats
  then Some (List.length (filter (fun poi => String.eqb (poi_category poi) c) pois))
  else assoc_get counts c.
Proof.
  induction cats as [| cat t IH]; intros counts c; simpl; [reflexivity |].
  rewrite IH.
  destruct (existsb (fun cat0 => String.eqb (cat_id cat0) c) t).
  - now rewrite orb_true_r.
  - rewrite orb_false_r.
    destruct (String.eqb_spec (cat_id cat) c) as [<- | Hne].
    + apply assoc_get_set_same.
    + apply assoc_get_set_other. exact Hne.
Qed.

Lemma existsb_cat_id (c : string) :
  existsb (fun cat => String.eqb (cat_id cat) c) categories = true <->
  In c (map cat_id categories).
Proof.
  rewrite existsb_exists, in_map_iff. split.
  - intros (cat & Hin & Heq). apply String.eqb_eq in Heq. eauto.
  - intros (cat & Heq & Hin). exists cat. split; [exact Hin |].
    now apply String.eqb_eq.
Qed.

(** X7.  For every category identifier (other than the empty string) the
    count [getPoiCountByCategory] reports is the number of POIs
    [getPoisByCategory] returns for it, and [counts.all] is the size of the
    whole catalog, which is what [getPoisByCategory("all")] returns. *)
Theorem counts_match_categories (c : string) :
  In c (map cat_id categories) -> c <> EmptyString ->
  assoc_get (getPoiCountByCategory pois categories) c =
    Some (List.length (getPoisByCategory pois c)) /\
  assoc_get (getPoiCountByCategory pois categories) "all" =
    Some (List.length (getPoisByCategory pois "all")) /\
  getPoisByCategory pois "all" = pois.
Proof.
  intros Hin Hne. unfold getPoiCountByCategory, getPoisByCategory.
  split; [| split; [apply assoc_get_set_same | reflexivity]].
  destruct (String.eqb_spec c "") as [-> | _]; [contradiction |].
  destruct (String.eqb_spec c "all") as [-> | Hall]; simpl.
  - apply assoc_get_set_same.
  - rewrite assoc_get_set_other by congruence.
    rewrite counts_fold. apply existsb_cat_id in Hin. now rewrite Hin.
Qed.

Lemma category_counts_cons (poi : Poi) (t : list Poi) (ids : list string) :
  NoDup ids ->
  fold_right Nat.add 0%nat
    (map (fun c => List.length (filter (in_category c) (poi :: t))) ids) =
  ((if set_has ids (poi_category poi) then 1 else 0) +
   fold_right Nat.add 0%nat
     (map (fun c => List.length (filter (in_category c) t)) ids))%nat.
Proof.
  induction ids as [| c ids IHi]; intros Hnd; [reflexivity |].
  inversion Hnd as [| ? ? Hc Hids]; subst.
  cbn [map fold_right]. rewrite (IHi Hids).
  cbn [filter]. unfold set_has. cbn [existsb]. unfold in_category at 1.
  destruct (String.eqb_spec (poi_category poi) c) as [Heq | Hne].
  - assert (Hno : existsb (String.eqb (poi_category poi)) ids = false).
    { apply not_true_is_false. intros H. apply existsb_exists in H.
      destruct H as (y & Hy & Heqy). apply String.eqb_eq in Heqy.
      apply Hc. congruence. }
    rewrite Hno. cbn. lia.
  - cbn. lia.
Qed.

Lemma filter_partition (ids : list string) :
  NoDup ids ->
  forall l : list Poi,
  List.length (filter (fun poi => set_has ids (poi_category poi)) l) =
  fold_right Nat.add 0%nat
    (map (fun c => List.length (filter (in_category c) l)) ids).
Proof.
  intros Hnd. induction l as [| poi t IH].
  - cbn [filter List.length]. clear Hnd.
    induction ids as [| c ids IHi]; [reflexivity | exact IHi].
  - rewrite (category_counts_cons poi t ids Hnd). cbn [filter].
    destruct (set_has ids (poi_category poi)); cbn [List.length]; rewrite IH;
      reflexivity.
Qed.


Lemma filter_all_true (A : Type) (f : A -> bool) (l : list A) :
  (forall x, In x l -> f x = true) -> filter f l = l.
Proof.
  induction l as [| a t IH]; intros H; simpl; [reflexivity |].
  rewrite (H a (or_introl eq_refl)). f_equal. apply IH.
  intros x Hx. apply H. right. exact Hx.
Qed.

Lemma set_has_In (ids : list string) (x : string) :
  set_has ids x = true <-> In x ids.
Proof.
  unfold set_has. rewrite existsb_exists. split.
  - intros (y & Hy & Heq). apply String.eqb_eq in Heq. congruence.
  - intros H. exists x. split; [exact H | apply String.eqb_refl].
Qed.

Lemma chip_counts (ids : list string) :
  (forall c, In c ids -> In c (map cat_id categories) /\ c <> "all"%string) ->
  map (count_of (getPoiCountByCategory pois categories)) ids =
  map (fun c => List.length (filter (in_category c) pois)) ids.
Proof.
  intros H. apply map_ext_in. intros c Hc. destruct (H c Hc) as [Hin Hall].
  unfold count_of, getPoiCountByCategory.
  rewrite assoc_get_set_other by congruence.
  rewrite counts_fold. apply existsb_cat_id in Hin. rewrite Hin. reflexivity.
Qed.

(** X8.  When category identifiers are pairwise distinct, none is
    "all", and every POI's category is one of them, the per-category counts
    add up to [counts.all], the number of POIs. *)
Theorem category_counts_total :
  NoDup (map cat_id categories) ->
  ~ In "all"%string (map cat_id categories) ->
  (forall poi, In poi pois -> In (poi_category poi) (map cat_id categories)) ->
  fold_right Nat.add 0%nat
    (map (count_of (getPoiCountByCategory pois categories))
       (map cat_id categories)) =
  count_of (getPoiCountByCategory pois categories) "all" /\
  count_of (getPoiCountByCategory pois categories) "all" = List.length pois.
Proof.
  intros Hnd Hall Hknown.
  assert (Htotal : count_of (getPoiCountByCategory pois categories) "all" =
                   List.length pois).
  { unfold count_of, getPoiCountByCategory. now rewrite assoc_get_set_same. }
  split; [| exact Htotal]. rewrite Htotal.
  rewrite chip_counts.
  - rewrite <- (filter_partition (map cat_id categories) Hnd pois).
    rewrite filter_all_true; [reflexivity |].
    intros poi Hin. apply set_has_In. apply Hknown. exact Hin.
  - intros c Hc. split; [exact Hc | congruence].
Qed.

End CatalogFacts.

Lemma sample_ids_distinct : NoDup (map poi_id Sample.pois).
Proof.
  repeat constructor; simpl; intuition discriminate.
Qed.

Lemma sample_categories_distinct : NoDup (map cat_id Sample.categories).
Proof.
  repeat constructor; simpl; intuition discriminate.
Qed.

Lemma getPoiById_lookup_witness :
  NoDup (map poi_id Sample.pois) /\
  In Sample.geysir Sample.pois /\
  getPoiById Sample.pois (poi_id Sample.geysir) = Some Sample.geysir.
Proof.
  split; [exact sample_ids_distinct |]. split; [right; left; reflexivity |].
  exact (proj2 (proj2 (getPoiById_lookup Sample.pois "geysir"))
           sample_ids_distinct Sample.geysir (or_intror (or_introl eq_refl))).
Defined.

Lemma counts_match_categories_witness :
  let counts := PoiQueries.getPoiCountByCategory Sample.pois Sample.categories in
  In "nature"%string (map cat_id Sample.categories) /\
  "nature"%string <> EmptyString /\
  (JsData.assoc_get counts "nature" =
     Some (List.length (PoiQueries.getPoisByCategory Sample.pois "nature")) /\
   JsData.assoc_get counts "all" =
     Some (List.length (PoiQueries.getPoisByCategory Sample.pois "all")) /\
   PoiQueries.getPoisByCategory Sample.pois "all" = Sample.pois).
Proof.
  cbv zeta. split; [right; left; reflexivity |]. split; [discriminate |].
  apply (counts_match_categories Sample.pois Sample.categories "nature").
  - right; left; reflexivity.
  - discriminate.
Defined.

Lemma category_counts_total_witness :
  let counts := PoiQueries.getPoiCountByCategory Sample.pois Sample.categories in
  NoDup (map cat_id Sample.categories) /\
  ~ In "all"%string (map cat_id Sample.categories) /\
  (forall poi, In poi Sample.pois ->
     In (poi_category poi) (map cat_id Sample.categories)) /\
  (fold_right Nat.add 0%nat
     (map (Notions.count_of counts) (map cat_id Sample.categories)) =
   Notions.count_of counts "all" /\
   Notions.count_of counts "all" = List.length Sample.pois).
Proof.
  cbv zeta.
  assert (Hall : ~ In "all"%string (map cat_id Sample.categories))
    by (simpl; intuition discriminate).
  assert (Hknown : forall poi, In poi Sample.pois ->
            In (poi_category poi) (map cat_id Sample.categories)).
  { intros poi [<- | [<- | []]]; simpl; auto. }
  split; [exact sample_categories_distinct |]. split; [exact Hall |].
  split; [exact Hknown |].
  exact (category_counts_total Sample.pois Sample.categories
           sample_categories_distinct Hall Hknown).
Defined.

(* ================================================================== *)
(** * POI markers and category filters *)
(* ================================================================== *)

Section MarkerFacts.

Import JsData PoiLayer Notions.

Lemma show_when_spec (b : bool) (data : MarkerData) :
  show_when b data = mkMarkerData (md_poi data) b.
Proof. destruct data as [poi [|]], b; reflexivity. Qed.

Lemma filterByCategory_spec (markers : Markers) (c : string) :
  filterByCategory markers c =
  map (fun entry =>
         (fst entry,
          mkMarkerData (md_poi (snd entry))
            (String.eqb c EmptyString || String.eqb c "all" ||
             in_category c (md_poi (snd entry)))))
      markers.
Proof.
  unfold filterByCategory. apply map_ext. intros [k data]. cbv zeta.
  now rewrite show_when_spec.
Qed.

Lemma visible_pois_filter (markers : Markers) (c : string) :
  c <> EmptyString -> c <> "all"%string ->
  visible_pois (filterByCategory markers c) =
  filter (in_category c) (marker_pois markers).
Proof.
  intros Hne Hall. rewrite filterByCategory_spec.
  destruct (String.eqb_spec c "") as [-> | _]; [contradiction |].
  destruct (String.eqb_spec c "all") as [-> | _]; [contradiction |].
  unfold visible_pois, marker_pois.
  induction markers as [| [k data] t IH]; [reflexivity |].
  simpl in *.
  destruct (in_category c (md_poi data)); simpl; rewrite IH; reflexivity.
Qed.

Lemma filterByCategory_twice (markers : Markers) (c1 c2 : string) :
  filterByCategory (filterByCategory markers c1) c2 = filterByCategory markers c2.
Proof.
  rewrite !filterByCategory_spec, map_map. apply map_ext. intros [k d].
  reflexivity.
Qed.

(** X9.  [filterByCategory] shows exactly the markers of the category and
    hides all others, whatever was shown before: of two calls in a row only
    the second counts.  It keeps every marker's POI. *)
Theorem filterByCategory_last_wins (markers : Markers) (c1 c2 : string) :
  filterByCategory (filterByCategory markers c1) c2 = filterByCategory markers c2 /\
  marker_pois (filterByCategory markers c2) = marker_pois markers /\
  (c2 <> EmptyString -> c2 <> "all"%string ->
   visible_pois (filterByCategory markers c2) =
   filter (in_category c2) (marker_pois markers)).
Proof.
  split; [| split].
  - apply filterByCategory_twice.
  - rewrite filterByCategory_spec. unfold marker_pois. rewrite map_map.
    apply map_ext. intros [k d]. reflexivity.
  - apply visible_pois_filter.
Qed.

Lemma fold_filterByCategory_last (f0 : list string) (last : string) :
  forall markers,
  fold_left filterByCategory (f0 ++ [last]) markers =
  filterByCategory markers last.
Proof.
  induction f0 as [| c f0 IH]; intros markers; [reflexivity |].
  cbn [app fold_left]. rewrite IH.
  apply filterByCategory_twice.
Qed.

End MarkerFacts.

Section SetFacts.

Import JsData.

Lemma set_delete_In (s : list string) (x y : string) :
  In y (set_delete s x) <-> In y s /\ y <> x.
Proof.
  unfold set_delete. rewrite filter_In. split.
  - intros [Hin Hneq]. split; [exact Hin |].
    intros ->. rewrite String.eqb_refl in Hneq. discriminate.
  - intros [Hin Hneq]. split; [exact Hin |].
    destruct (String.eqb_spec x y); [congruence | reflexivity].
Qed.

Lemma set_delete_NoDup (s : list string) (x : string) :
  NoDup s -> NoDup (set_delete s x).
Proof. intros H. unfold set_delete. apply NoDup_filter. exact H. Qed.

Lemma set_add_In (s : list string) (x y : string) :
  In y (set_add s x) <-> In y s \/ y = x.
Proof.
  unfold set_add. destruct (set_has s x) eqn:E.
  - apply set_has_In in E. split; [auto | intros [H | ->]; assumption].
  - rewrite in_app_iff. simpl. intuition congruence.
Qed.

Lemma set_add_NoDup (s : list string) (x : string) :
  NoDup s -> NoDup (set_add s x).
Proof.
  intros H. unfold set_add. destruct (set_has s x) eqn:E; [exact H |].
  apply NoDup_app; [exact H | repeat constructor; intros [] |].
  intros y Hy [<- | []]. apply set_has_In in Hy. congruence.
Qed.

End SetFacts.

Section ExploreFacts.

Import JsData PoiLayer Explore Notions.

Variable pois : list Poi.

(** The filters [toggleCategoryFilter] leaves. *)
Lemma toggle_filters (s : State) (c : string) :
  activeFilters (toggleCategoryFilter pois s c) =
    if String.eqb c "all" then ["all"%string]
    else
      let f := set_delete (activeFilters s) "all" in
      let f := if set_has f c then set_delete f c else set_add f c in
      if (List.length f =? 0)%nat then set_add f "all" else f.
Proof.
  unfold toggleCategoryFilter, applyFilters. cbn [activeFilters].
  destruct (String.eqb c "all"); reflexivity.
Qed.

(** X10.  After every [toggleCategoryFilter] the set of active filters is
    not empty, "all" is active only on its own, the set has no duplicate if
    it had none, and the count shown is the number of POIs listed. *)
Theorem toggle_keeps_filters_sane (s : State) (c : string) :
  let s' := toggleCategoryFilter pois s c in
  activeFilters s' <> [] /\
  (In "all"%string (activeFilters s') -> activeFilters s' = ["all"%string]) /\
  (NoDup (activeFilters s) -> NoDup (activeFilters s')) /\
  poiCount s' = List.length (poiList s').
Proof.
  cbv zeta. rewrite toggle_filters.
  split; [| split; [| split]].
  - destruct (String.eqb c "all"); [discriminate |]. cbv zeta.
    set (f := set_delete (activeFilters s) "all").
    set (g := if set_has f c then set_delete f c else set_add f c).
    destruct (List.length g =? 0)%nat eqn:E.
    + apply Nat.eqb_eq in E. destruct g; [discriminate | discriminate].
    + apply Nat.eqb_neq in E. intros H. rewrite H in E. apply E. reflexivity.
  - destruct (String.eqb_spec c "all") as [-> | Hc]; [reflexivity |]. cbv zeta.
    set (f := set_delete (activeFilters s) "all").
    set (g := if set_has f c then set_delete f c else set_add f c).
    assert (Hg : ~ In "all"%string g).
    { unfold g. destruct (set_has f c).
      - intros H. apply set_delete_In in H. destruct H as [H _].
        apply set_delete_In in H. destruct H as [_ H]. congruence.
      - intros H. apply set_add_In in H. destruct H as [H | H]; [| congruence].
        apply set_delete_In in H. destruct H as [_ H]. congruence. }
    destruct (List.length g =? 0)%nat eqn:E.
    + apply Nat.eqb_eq in E. destruct g; [reflexivity | discriminate].
    + intros H. contradiction.
  - intros Hnd. destruct (String.eqb c "all"); [repeat constructor; intros [] |].
    cbv zeta.
    set (f := set_delete (activeFilters s) "all").
    assert (Hf : NoDup f) by (apply set_delete_NoDup; exact Hnd).
    assert (Hg : NoDup (if set_has f c then set_delete f c else set_add f c)).
    { destruct (set_has f c); [apply set_delete_NoDup | apply set_add_NoDup];
        exact Hf. }
    destruct (List.length _ =? 0)%nat; [apply set_add_NoDup |]; exact Hg.
  - unfold toggleCategoryFilter, applyFilters. cbn [poiCount poiList activeFilters].
    destruct (set_has _ "all"); reflexivity.
Qed.


(** X11.  With several categories active (and not "all"), [applyFilters]
    leaves on the map only the markers of the category activated last,
    while the list holds the POIs of every active category and the count is
    the length of the list. *)
Theorem applyFilters_shows_last_category (s : State) (f0 : list string)
    (last : string) :
  activeFilters s = f0 ++ [last] ->
  ~ In "all"%string (activeFilters s) ->
  last <> EmptyString ->
  let s' := applyFilters pois s in
  markers s' = filterByCategory (markers s) last /\
  visible_pois (markers s') = filter (in_category last) (marker_pois (markers s)) /\
  poiList s' = filter (fun poi => set_has (activeFilters s) (poi_category poi)) pois /\
  poiCount s' = List.length (poiList s').
Proof.
  intros Hf Hall Hlast. cbv zeta.
  assert (Hno : set_has (activeFilters s) "all" = false).
  { apply not_true_is_false. intros H. apply set_has_In in H. contradiction. }
  assert (Hm : markers (applyFilters pois s) = filterByCategory (markers s) last).
  { unfold applyFilters. cbn [markers]. rewrite Hno, Hf.
    apply fold_filterByCategory_last. }
  split; [exact Hm |]. split.
  - rewrite Hm. apply visible_pois_filter; [exact Hlast |].
    intros ->. apply Hall. rewrite Hf. apply in_or_app. right. left. reflexivity.
  - unfold applyFilters. cbn [poiList poiCount]. rewrite Hno. split; reflexivity.
Qed.

Lemma assoc_set_fresh {V : Type} (m : list (string * V)) (k : string) (v : V) :
  assoc_get m k = None -> assoc_set m k v = m ++ [(k, v)].
Proof.
  induction m as [| [k' v'] m IHm]; intros H; [reflexivity |].
  simpl in *. destruct (String.eqb k' k); [discriminate |].
  now rewrite IHm.
Qed.

Lemma addPOIMarkers_pois (l : list Poi) :
  NoDup (map poi_id l) ->
  forall markers,
  (forall poi, In poi l -> assoc_get markers (poi_id poi) = None) ->
  addPOIMarkers markers l =
    markers ++ map (fun poi => (poi_id poi, mkMarkerData poi true)) l.
Proof.
  induction l as [| poi t IH]; intros Hnd markers Hfresh.
  - simpl. now rewrite app_nil_r.
  - inversion Hnd as [| ? ? Hp Ht]; subst.
    unfold addPOIMarkers in *. cbn [fold_left]. rewrite IH.
    + unfold addPOIMarker.
      rewrite assoc_set_fresh by (apply Hfresh; left; reflexivity).
      rewrite <- app_assoc. reflexivity.
    + exact Ht.
    + intros q Hq. unfold addPOIMarker.
      rewrite assoc_get_set_other.
      * apply Hfresh. right. exact Hq.
      * intros Heq. apply Hp. rewrite Heq. apply in_map. exact Hq.
Qed.

Lemma marker_lookup (l : list Poi) :
  NoDup (map poi_id l) ->
  forall poi, In poi l ->
  assoc_get (map (fun poi => (poi_id poi, mkMarkerData poi true)) l) (poi_id poi) =
    Some (mkMarkerData poi true).
Proof.
  induction l as [| p t IH]; intros Hnd poi Hin; [contradiction |].
  inversion Hnd as [| ? ? Hp Ht]; subst. cbn [map assoc_get].
  destruct Hin as [-> | Hin]; [now rewrite String.eqb_refl |].
  destruct (String.eqb_spec (poi_id p) (poi_id poi)) as [Heq | Hne].
  - exfalso. apply Hp. rewrite Heq. apply in_map. exact Hin.
  - apply IH; assumption.
Qed.

(** X12.  When the catalog's identifiers are pairwise distinct, the state
    after [init] has one marker per POI, in catalog order, all on the map,
    each found under its POI's identifier. *)
Theorem initial_markers_cover_catalog :
  NoDup (map poi_id pois) ->
  marker_pois (markers (Explore.initial pois)) = pois /\
  visible_pois (markers (Explore.initial pois)) = pois /\
  (forall poi, In poi pois ->
     assoc_get (markers (Explore.initial pois)) (poi_id poi) =
       Some (mkMarkerData poi true)).
Proof.
  intros Hnd. unfold Explore.initial. cbn [markers].
  rewrite (addPOIMarkers_pois pois Hnd []) by reflexivity. cbn [app].
  split; [| split].
  - unfold marker_pois. rewrite map_map. cbn. apply map_id.
  - unfold visible_pois.
    rewrite filter_all_true.
    + rewrite map_map. cbn. apply map_id.
    + intros e He. apply in_map_iff in He. destruct He as (p & <- & _).
      reflexivity.
  - apply marker_lookup. exact Hnd.
Qed.

(** X13.  With distinct active categories, all of them categories of the
    catalog and none "all", the count [applyFilters] shows is the sum of
    the counts [getPoiCountByCategory] reports for the active categories. *)
Theorem shown_count_is_chip_sum (categories : list Category) (s : State) :
  NoDup (activeFilters s) ->
  (forall c, In c (activeFilters s) ->
     In c (map cat_id categories) /\ c <> "all"%string) ->
  poiCount (applyFilters pois s) =
    fold_right Nat.add 0%nat
      (map (count_of (PoiQueries.getPoiCountByCategory pois categories))
         (activeFilters s)).
Proof.
  intros Hnd Hcats.
  assert (Hno : set_has (activeFilters s) "all" = false).
  { apply not_true_is_false. intros H. apply set_has_In in H.
    destruct (Hcats _ H) as [_ Hall]. congruence. }
  unfold applyFilters. cbn [poiCount]. rewrite Hno.
  rewrite (chip_counts pois categories (activeFilters s) Hcats).
  apply filter_partition. exact Hnd.
Qed.

End ExploreFacts.

Lemma filterByCategory_last_wins_witness :
  let markers := Explore.markers (Explore.initial Sample.pois) in
  "nature"%string <> EmptyString /\ "nature"%string <> "all"%string /\
  PoiLayer.visible_pois
    (PoiLayer.filterByCategory (PoiLayer.filterByCategory markers "waterfall")
       "nature") =
  filter (Notions.in_category "nature") (Notions.marker_pois markers).
Proof.
  cbv zeta. split; [discriminate |]. split; [discriminate |].
  destruct (filterByCategory_last_wins
              (Explore.markers (Explore.initial Sample.pois))
              "waterfall" "nature") as (Htwice & _ & Hvisible).
  rewrite Htwice. apply Hvisible; discriminate.
Defined.

Lemma toggle_keeps_filters_sane_witness :
  let s := Explore.toggleCategoryFilter Sample.pois
             (Explore.initial Sample.pois) "waterfall" in
  NoDup (Explore.activeFilters s) /\
  NoDup (Explore.activeFilters
           (Explore.toggleCategoryFilter Sample.pois s "waterfall")) /\
  Explore.activeFilters
    (Explore.toggleCategoryFilter Sample.pois s "waterfall") <> [].
Proof.
  cbv zeta.
  assert (H0 : NoDup (Explore.activeFilters (Explore.initial Sample.pois))).
  { repeat constructor; simpl; intuition discriminate. }
  assert (H1 := proj1 (proj2 (proj2
                  (toggle_keeps_filters_sane Sample.pois
                     (Explore.initial Sample.pois) "waterfall"))) H0).
  cbv zeta in H1. split; [exact H1 |].
  destruct (toggle_keeps_filters_sane Sample.pois
              (Explore.toggleCategoryFilter Sample.pois
                 (Explore.initial Sample.pois) "waterfall") "waterfall")
    as (Hne & _ & Hnd & _).
  split; [exact (Hnd H1) | exact Hne].
Defined.

Lemma applyFilters_shows_last_category_witness :
  let s := Notions.two_filters in
  Explore.activeFilters s = ["waterfall"%string] ++ ["nature"%string] /\
  ~ In "all"%string (Explore.activeFilters s) /\
  "nature"%string <> EmptyString /\
  (let s' := Explore.applyFilters Sample.pois s in
   Explore.markers s' = PoiLayer.filterByCategory (Explore.markers s) "nature" /\
   PoiLayer.visible_pois (Explore.markers s') =
     filter (Notions.in_category "nature") (Notions.marker_pois (Explore.markers s)) /\
   Explore.poiList s' =
     filter (fun poi => JsData.set_has (Explore.activeFilters s) (poi_category poi))
       Sample.pois /\
   Explore.poiCount s' = List.length (Explore.poiList s')).
Proof.
  cbv zeta.
  assert (Hf : Explore.activeFilters Notions.two_filters =
               ["waterfall"%string] ++ ["nature"%string]) by reflexivity.
  assert (Hall : ~ In "all"%string (Explore.activeFilters Notions.two_filters)).
  { rewrite Hf. simpl. intuition discriminate. }
  split; [exact Hf |]. split; [exact Hall |]. split; [discriminate |].
  apply (applyFilters_shows_last_category Sample.pois Notions.two_filters
           ["waterfall"%string] "nature" Hf Hall).
  discriminate.
Defined.

Lemma initial_markers_cover_catalog_witness :
  NoDup (map poi_id Sample.pois) /\
  Notions.marker_pois (Explore.markers (Explore.initial Sample.pois)) = Sample.pois /\
  PoiLayer.visible_pois (Explore.markers (Explore.initial Sample.pois)) = Sample.pois.
Proof.
  split; [exact sample_ids_distinct |].
  destruct (initial_markers_cover_catalog Sample.pois sample_ids_distinct)
    as (H1 & H2 & _).
  split; [exact H1 | exact H2].
Defined.

Lemma shown_count_is_chip_sum_witness :
  let s := Notions.two_filters in
  NoDup (Explore.activeFilters s) /\
  (forall c, In c (Explore.activeFilters s) ->
     In c (map cat_id Sample.categories) /\ c <> "all"%string) /\
  Explore.poiCount (Explore.applyFilters Sample.pois s) =
    fold_right Nat.add 0%nat
      (map (Notions.count_of
              (PoiQueries.getPoiCountByCategory Sample.pois Sample.categories))
         (Explore.activeFilters s)).
Proof.
  cbv zeta.
  assert (Hnd : NoDup (Explore.activeFilters Notions.two_filters)).
  { repeat constructor; simpl; intuition discriminate. }
  assert (Hc : forall c, In c (Explore.activeFilters Notions.two_filters) ->
             In c (map cat_id Sample.categories) /\ c <> "all"%string).
  { intros c [<- | [<- | []]]; split; simpl; auto; discriminate. }
  split; [exact Hnd |]. split; [exact Hc |].
  exact (shown_count_is_chip_sum Sample.pois Sample.categories
           Notions.two_filters Hnd Hc).
Defined.

(* ================================================================== *)
(** * More on the route aggregate *)
(* ================================================================== *)

Section MarkersMirror.

Import App Notions.

Lemma addWaypointMarkers_spec (wps : list (LatLng * string)) :
  forall m index,
  MapManager.addWaypointMarkers m wps index =
    MapManager.mkState (MapManager.routeLine m)
      (MapManager.waypointMarkers m ++ expected_markers wps index)
      (MapManager.popupOpen m).
Proof.
  induction wps as [| [c n] t IH]; intros m index; simpl.
  - rewrite app_nil_r. destruct m; reflexivity.
  - rewrite IH. unfold MapManager.addWaypointMarker. simpl.
    rewrite <- app_assoc. reflexivity.
Qed.

Lemma expected_markers_nth (wps : list (LatLng * string)) :
  forall index k c n,
  nth_error wps k = Some (c, n) ->
  nth_error (expected_markers wps index) k =
    Some (MapManager.mkMarker c (index + k + 1)
            (str_or n ("Punto " ++ nat_to_string (index + k + 1)))).
Proof.
  induction wps as [| [c0 n0] t IH]; intros index [| k] c n H; simpl in H;
    try discriminate.
  - injection H as -> ->. simpl. now rewrite Nat.add_0_r.
  - simpl. rewrite (IH (S index) k c n H).
    replace (S index + k + 1)%nat with (index + S k + 1)%nat by lia. reflexivity.
Qed.

Lemma expected_markers_length (wps : list (LatLng * string)) :
  forall index, List.length (expected_markers wps index) = List.length wps.
Proof.
  induction wps as [| [c n] t IH]; intros index; simpl; [reflexivity |].
  now rewrite IH.
Qed.

(** X14.  [updateWaypointMarkers] leaves one marker per waypoint, in
    order: the k-th at the waypoint's coordinates, numbered k + 1, titled with
    the waypoint's name ("Punto k+1" when the name is empty).  The markers
    that were there before do not matter, the route line is untouched, and
    doing it again changes nothing. *)
Theorem updateWaypointMarkers_mirrors (m : MapManager.State)
    (wps : list (LatLng * string)) :
  let m' := MapManager.updateWaypointMarkers m wps in
  List.length (MapManager.waypointMarkers m') = List.length wps /\
  (forall k c n, nth_error wps k = Some (c, n) ->
     nth_error (MapManager.waypointMarkers m') k =
       Some (MapManager.mkMarker c (k + 1)
               (str_or n ("Punto " ++ nat_to_string (k + 1))))) /\
  MapManager.routeLine m' = MapManager.routeLine m /\
  MapManager.updateWaypointMarkers m' wps = m'.
Proof.
  cbv zeta. unfold MapManager.updateWaypointMarkers.
  rewrite !addWaypointMarkers_spec. cbn.
  split; [apply expected_markers_length |]. split.
  - intros k c n H. rewrite (expected_markers_nth wps 0 k c n H). reflexivity.
  - split; reflexivity.
Qed.

Lemma updateRouteOnMap_markers (s : State) :
  MapManager.waypointMarkers (map (updateRouteOnMap s)) =
    expected_markers (List.map marker_input (waypoints (currentRoute s))) 0.
Proof.
  destruct (Nat.lt_ge_cases (List.length (waypoints (currentRoute s))) 2) as [H | H].
  - rewrite updateRouteOnMap_below_two by assumption. cbn.
    unfold MapManager.updateWaypointMarkers. rewrite addWaypointMarkers_spec.
    reflexivity.
  - rewrite updateRouteOnMap_ready by assumption. cbn.
    unfold MapManager.updateWaypointMarkers. rewrite addWaypointMarkers_spec.
    reflexivity.
Qed.

Section Reachable.

Variable pois : list Poi.
Variable categories : list Category.

Lemma step_mirrored (s : State) (e : Event) :
  mirrored s -> mirrored (step pois categories s e).
Proof.
  unfold mirrored. intros H. destruct e as [poiId | index | mode | | k o]; simpl.
  - unfold addWaypointFromPOI.
    destruct (getPoiById pois poiId) as [poi |]; [| exact H].
    destruct (existsb _ _); [exact H |].
    cbn [showToast map currentRoute].
    rewrite updateRouteOnMap_markers, updateRouteOnMap_waypoints. reflexivity.
  - unfold removeWaypoint; cbv zeta.
    rewrite updateRouteOnMap_markers, updateRouteOnMap_waypoints. reflexivity.
  - unfold setTransportMode; cbv zeta. cbn [set_route currentRoute waypoints].
    destruct (2 <=? _)%nat.
    + rewrite updateRouteOnMap_markers, updateRouteOnMap_waypoints. reflexivity.
    + exact H.
  - reflexivity.
  - unfold completeRoute. destruct (nth_error (pending s) k) as [p |]; [| exact H].
    cbv zeta. destruct (Routing.geometry _); cbn; exact H.
Qed.

(** X15.  In every state the events lead to from the constructor's state,
    the waypoint markers on the map are those of the route's waypoints, one
    per waypoint and in order. *)
Theorem markers_mirror_route (es : list Event) :
  let s := run pois categories initial es in
  MapManager.waypointMarkers (map s) =
    expected_markers (List.map marker_input (waypoints (currentRoute s))) 0 /\
  List.length (MapManager.waypointMarkers (map s)) =
    List.length (waypoints (currentRoute s)).
Proof.
  cbv zeta.
  assert (H : mirrored (run pois categories initial es)).
  { unfold run.
    assert (G : forall s, mirrored s ->
                  mirrored (fold_left (step pois categories) es s)).
    { induction es as [| e t IH]; intros s Hs; simpl; [exact Hs |].
      apply IH, step_mirrored, Hs. }
    apply G. reflexivity. }
  split; [exact H |]. rewrite H, expected_markers_length, length_map. reflexivity.
Qed.

End Reachable.

End MarkersMirror.

Section AggregateFacts.

Import App Notions.

Variable pois : list Poi.
Variable categories : list Category.

Lemma updateRouteOnMap_requests (s : State) :
  let coords := List.map coordinates (waypoints (currentRoute s)) in
  let mode := transportMode (currentRoute s) in
  if (List.length (waypoints (currentRoute s)) <? 2)%nat
  then requests (updateRouteOnMap s) = requests s /\
       pending (updateRouteOnMap s) = pending s /\
       toasts (updateRouteOnMap s) = toasts s
  else requests (updateRouteOnMap s) = requests s ++ [buildRequest coords mode] /\
       pending (updateRouteOnMap s) = pending s ++ [mkPending coords mode] /\
       toasts (updateRouteOnMap s) = toasts s.
Proof.
  cbv zeta. destruct (Nat.ltb_spec (List.length (waypoints (currentRoute s))) 2).
  - rewrite updateRouteOnMap_below_two by assumption. repeat split.
  - rewrite updateRouteOnMap_ready by assumption. repeat split.
Qed.

Lemma updateRouteOnMap_gated (s : State) :
  gated s -> gated (updateRouteOnMap s).
Proof.
  intros (Hr & Hp & Ht). unfold gated.
  assert (H := updateRouteOnMap_requests s). cbv zeta in H.
  destruct (Nat.ltb_spec (List.length (waypoints (currentRoute s))) 2) as [Hlt | Hge];
    destruct H as (-> & -> & ->).
  - auto.
  - split; [| split; [| exact Ht]].
    + apply Forall_app. split; [exact Hr |]. constructor; [| constructor].
      unfold buildRequest. cbn. rewrite !length_map. exact Hge.
    + apply Forall_app. split; [exact Hp |]. constructor; [| constructor].
      cbn. rewrite length_map. exact Hge.
Qed.

Lemma gated_ext (s s' : State) :
  requests s' = requests s -> pending s' = pending s -> toasts s' = toasts s ->
  gated s -> gated s'.
Proof. unfold gated. intros -> -> ->. auto. Qed.

Lemma gated_toast (s : State) (message type : string) :
  type <> "error"%string -> gated s -> gated (showToast s message type).
Proof.
  intros Hty (Hr & Hp & Ht). unfold gated. cbn. split; [exact Hr |].
  split; [exact Hp |]. intros Hin. apply in_app_or in Hin.
  destruct Hin as [Hin | [Heq | []]]; [contradiction |].
  unfold error_toast in Heq. injection Heq as _ Heq. contradiction.
Qed.

Lemma step_gated (s : State) (e : Event) :
  gated s -> gated (step pois categories s e).
Proof.
  intros H. destruct e as [poiId | index | mode | | k o]; simpl.
  - unfold addWaypointFromPOI.
    destruct (getPoiById pois poiId) as [poi |]; [| exact H].
    destruct (existsb _ _).
    + apply gated_toast; [discriminate | exact H].
    + apply gated_toast; [discriminate |]. apply updateRouteOnMap_gated.
      revert H. apply gated_ext; reflexivity.
  - unfold removeWaypoint; cbv zeta. apply updateRouteOnMap_gated.
    revert H. apply gated_ext; reflexivity.
  - unfold setTransportMode; cbv zeta. cbn [set_route currentRoute waypoints].
    destruct (2 <=? _)%nat.
    + apply updateRouteOnMap_gated. revert H. apply gated_ext; reflexivity.
    + revert H. apply gated_ext; reflexivity.
  - unfold clearRoute. apply gated_toast; [discriminate |].
    revert H. apply gated_ext; reflexivity.
  - unfold completeRoute. destruct (nth_error (pending s) k) as [p |]; [| exact H].
    cbv zeta. destruct H as (Hr & Hp & Ht).
    assert (Hp' : Forall (fun p => (2 <= List.length (pend_coordinates p))%nat)
                    (snd (splice1 (pending s) k))).
    { rewrite splice1_snd. rewrite Forall_forall in *. intros x Hx.
      apply Hp. eapply remove_at_In. exact Hx. }
    destruct (Routing.geometry _); (split; [exact Hr | split; [exact Hp' | exact Ht]]).
Qed.

(** X16.  In every state the events lead to from the constructor's state,
    every request sent to the routing service and every suspended
    computation carries two coordinates or more, and the toast of the
    error branch of [updateRouteOnMap] has never been shown. *)
Theorem requests_are_gated (es : list Event) :
  let s := run pois categories initial es in
  Forall (fun r => (2 <= List.length (req_coordinates r))%nat) (requests s) /\
  Forall (fun p => (2 <= List.length (pend_coordinates p))%nat) (pending s) /\
  ~ In error_toast (toasts s).
Proof.
  cbv zeta. change (gated (run pois categories initial es)). unfold run.
  assert (G : forall s, gated s -> gated (fold_left (step pois categories) es s)).
  { induction es as [| e t IH]; intros s Hs; simpl; [exact Hs |].
    apply IH, step_gated, Hs. }
  apply G. unfold gated. cbn. repeat split; auto. 
Qed.


Lemma completeRoute_head (s : State) (o : FetchOutcome) (p : Pending)
    (rest : list Pending) :
  pending s = p :: rest ->
  pending (completeRoute s 0 o) = rest /\
  shown (completeRoute s 0 o) =
    stats_of (resumeRoute (pend_coordinates p) (pend_mode p) o) /\
  waypoints (currentRoute (completeRoute s 0 o)) = waypoints (currentRoute s) /\
  transportMode (currentRoute (completeRoute s 0 o)) =
    transportMode (currentRoute s) /\
  requests (completeRoute s 0 o) = requests s.
Proof.
  intros Hp. unfold completeRoute. rewrite Hp. cbn [nth_error]. cbv zeta.
  destruct (Routing.geometry _); cbn; repeat split; reflexivity.
Qed.

(** X17.  When all requests in flight settle in the order they were sent,
    none is left in flight and the stats shown are those of the computation
    sent last; the waypoints, the mode and the requests sent are as
    before. *)
Theorem in_order_last_wins (s : State) (ps : list Pending) (p : Pending)
    (os : list FetchOutcome) (o : FetchOutcome) :
  pending s = ps ++ [p] ->
  List.length os = List.length ps ->
  let s' := settle_in_order s (os ++ [o]) in
  pending s' = [] /\
  shown s' = stats_of (resumeRoute (pend_coordinates p) (pend_mode p) o) /\
  waypoints (currentRoute s') = waypoints (currentRoute s) /\
  transportMode (currentRoute s') = transportMode (currentRoute s) /\
  requests s' = requests s.
Proof.
  cbv zeta. revert s os. induction ps as [| q ps IH]; intros s os Hp Hlen.
  - destruct os; [| discriminate]. simpl in Hp. unfold settle_in_order. simpl.
    destruct (completeRoute_head s o p [] Hp) as (H1 & H2 & H3 & H4 & H5).
    auto.
  - destruct os as [| o1 os]; [discriminate |]. simpl in Hp, Hlen.
    injection Hlen as Hlen.
    destruct (completeRoute_head s o1 q (ps ++ [p]) Hp) as (H1 & _ & H3 & H4 & H5).
    unfold settle_in_order in *. cbn [app fold_left].
    destruct (IH (completeRoute s 0 o1) os H1 Hlen) as (G1 & G2 & G3 & G4 & G5).
    rewrite G1, G2, G3, G4, G5, H3, H4, H5. auto.
Qed.

Lemma step_from_catalog (s : State) (e : Event) :
  from_catalog pois categories s ->
  from_catalog pois categories (step pois categories s e).
Proof.
  unfold from_catalog. intros H.
  destruct e as [poiId | index | mode | | k o]; simpl.
  - unfold addWaypointFromPOI.
    destruct (getPoiById pois poiId) as [poi |] eqn:E; [| exact H].
    destruct (existsb _ _); [exact H |].
    cbn [showToast currentRoute]. rewrite updateRouteOnMap_waypoints. cbn.
    apply Forall_app. split; [exact H |]. constructor; [| constructor].
    exists poi. split; [| reflexivity].
    unfold getPoiById in E. apply find_some in E. tauto.
  - unfold removeWaypoint; cbv zeta. rewrite updateRouteOnMap_waypoints. cbn.
    rewrite splice1_snd. rewrite Forall_forall in *. intros x Hx.
    apply H. eapply remove_at_In. exact Hx.
  - unfold setTransportMode; cbv zeta. cbn [set_route currentRoute waypoints].
    destruct (2 <=? _)%nat; [rewrite updateRouteOnMap_waypoints |]; exact H.
  - constructor.
  - unfold completeRoute. destruct (nth_error (pending s) k) as [p |]; [| exact H].
    cbv zeta. destruct (Routing.geometry _); exact H.
Qed.

(** X18.  In every state the events lead to from the constructor's state,
    each waypoint of the route was made of a POI of the catalog: it has that
    POI's identifier, name and coordinates, and [getPoiById] finds its
    identifier. *)
Theorem waypoints_come_from_catalog (es : list Event) (wp : Waypoint) :
  In wp (waypoints (currentRoute (run pois categories initial es))) ->
  exists poi,
    getPoiById pois (id wp) <> None /\
    In poi pois /\ wp = waypoint_of categories poi /\
    id wp = poi_id poi /\ name wp = poi_name poi /\
    coordinates wp = poi_coordinates poi.
Proof.
  assert (H : from_catalog pois categories (run pois categories initial es)).
  { unfold run.
    assert (G : forall s, from_catalog pois categories s ->
                  from_catalog pois categories
                    (fold_left (step pois categories) es s)).
    { induction es as [| e t IH]; intros s Hs; simpl; [exact Hs |].
      apply IH, step_from_catalog, Hs. }
    apply G. constructor. }
  unfold from_catalog in H. rewrite Forall_forall in H.
  intros Hin. destruct (H wp Hin) as (poi & Hpoi & ->).
  exists poi. split.
  - cbn. unfold getPoiById. intros Hnone.
    apply (find_none _ _ Hnone) in Hpoi. rewrite String.eqb_refl in Hpoi.
    discriminate.
  - repeat split; auto.
Qed.

Lemma updateRouteOnMap_mode (s : State) :
  transportMode (currentRoute (updateRouteOnMap s)) =
  transportMode (currentRoute s).
Proof.
  destruct (Nat.lt_ge_cases (List.length (waypoints (currentRoute s))) 2)
    as [H | H].
  - rewrite updateRouteOnMap_below_two by assumption. reflexivity.
  - rewrite updateRouteOnMap_ready by assumption. reflexivity.
Qed.

Lemma removeWaypoint_route (s : State) (index : nat) :
  waypoints (currentRoute (removeWaypoint s index)) =
    remove_at index (waypoints (currentRoute s)) /\
  transportMode (currentRoute (removeWaypoint s index)) =
    transportMode (currentRoute s).
Proof.
  unfold removeWaypoint; cbv zeta.
  rewrite updateRouteOnMap_waypoints, updateRouteOnMap_mode. cbn.
  rewrite splice1_snd. split; reflexivity.
Qed.

Lemma addWaypoint_new (s : State) (poiId : string) (poi : Poi) :
  getPoiById pois poiId = Some poi ->
  ~ In poiId (route_ids s) ->
  waypoints (currentRoute (addWaypointFromPOI pois categories s poiId)) =
    waypoints (currentRoute s) ++ [waypoint_of categories poi] /\
  transportMode (currentRoute (addWaypointFromPOI pois categories s poiId)) =
    transportMode (currentRoute s).
Proof.
  intros Hpoi Hnew. unfold addWaypointFromPOI. rewrite Hpoi.
  destruct (existsb _ _) eqn:E.
  - exfalso. apply Hnew. apply existsb_id_In. exact E.
  - cbn [showToast currentRoute].
    rewrite updateRouteOnMap_waypoints, updateRouteOnMap_mode. split; reflexivity.
Qed.

(** X19.  Adding a catalog POI that is not in the route appends its
    waypoint; removing the last position then gives back the waypoint list
    as it was, the mode unchanged. *)
Theorem add_then_remove_restores (s : State) (poiId : string) (poi : Poi) :
  getPoiById pois poiId = Some poi ->
  ~ In poiId (route_ids s) ->
  let added := addWaypointFromPOI pois categories s poiId in
  let removed := removeWaypoint added (List.length (waypoints (currentRoute s))) in
  waypoints (currentRoute added) =
    waypoints (currentRoute s) ++ [waypoint_of categories poi] /\
  waypoints (currentRoute removed) = waypoints (currentRoute s) /\
  transportMode (currentRoute removed) = transportMode (currentRoute s).
Proof.
  intros Hpoi Hnew. cbv zeta.
  destruct (addWaypoint_new s poiId poi Hpoi Hnew) as [Hw Hm].
  destruct (removeWaypoint_route (addWaypointFromPOI pois categories s poiId)
              (List.length (waypoints (currentRoute s)))) as [Hw' Hm'].
  split; [exact Hw |]. split; [| congruence].
  rewrite Hw', Hw. unfold remove_at.
  rewrite firstn_app, Nat.sub_diag, firstn_all, skipn_all2
    by (rewrite length_app; simpl; lia).
  cbn. now rewrite !app_nil_r.
Qed.


(** X20.  An event sends at most one request, and a request it sends is
    for the route as the event leaves it: the coordinates of its waypoints
    in order and its mode.  Removing a waypoint or setting the mode sends
    one whenever two waypoints or more are left. *)
Theorem request_describes_route (s : State) (e : Event) :
  let s' := step pois categories s e in
  let coords := List.map coordinates (waypoints (currentRoute s')) in
  let mode := transportMode (currentRoute s') in
  (requests s' = requests s \/
   (2 <= List.length coords)%nat /\
   requests s' = requests s ++ [buildRequest coords mode] /\
   pending s' = pending s ++ [mkPending coords mode]) /\
  (forall index, e = RemoveWaypoint index -> (2 <= List.length coords)%nat ->
     requests s' = requests s ++ [buildRequest coords mode]) /\
  (forall m, e = SetTransportMode m -> (2 <= List.length coords)%nat ->
     requests s' = requests s ++ [buildRequest coords mode]).
Proof.
  cbv zeta.
  assert (Hupd : forall t : State,
            requests (updateRouteOnMap t) = requests t /\
            pending (updateRouteOnMap t) = pending t /\
            (List.length (waypoints (currentRoute t)) < 2)%nat \/
            (2 <= List.length (waypoints (currentRoute t)))%nat /\
            requests (updateRouteOnMap t) =
              requests t ++ [buildRequest (List.map coordinates (waypoints (currentRoute t)))
                               (transportMode (currentRoute t))] /\
            pending (updateRouteOnMap t) =
              pending t ++ [mkPending (List.map coordinates (waypoints (currentRoute t)))
                              (transportMode (currentRoute t))]).
  { intros t. assert (H := updateRouteOnMap_requests t). cbv zeta in H.
    destruct (Nat.ltb_spec (List.length (waypoints (currentRoute t))) 2);
      destruct H as (H1 & H2 & _); [left | right]; auto. }
  destruct e as [poiId | index | mode | | k o]; cbn [step].
  - split; [| split; intros ? H; discriminate H].
    unfold addWaypointFromPOI.
    destruct (getPoiById pois poiId) as [poi |]; [| left; reflexivity].
    destruct (existsb _ _); [left; reflexivity |].
    cbn [showToast currentRoute requests pending].
    rewrite updateRouteOnMap_waypoints, updateRouteOnMap_mode.
    match goal with |- context [updateRouteOnMap ?t] =>
      destruct (Hupd t) as [(H1 & H2 & _) | (H0 & H1 & H2)] end.
    + left. rewrite H1. reflexivity.
    + right. rewrite length_map. split; [exact H0 |].
      rewrite H1, H2. split; reflexivity.
  - unfold removeWaypoint; cbv zeta.
    rewrite updateRouteOnMap_waypoints, updateRouteOnMap_mode.
    match goal with |- context [updateRouteOnMap ?t] =>
      destruct (Hupd t) as [(H1 & H2 & H3) | (H0 & H1 & H2)] end.
    + split; [left; rewrite H1; reflexivity |].
      split; [| intros ? H; discriminate H].
      intros ? _ Hlen. rewrite length_map in Hlen. lia.
    + split; [right; rewrite length_map; split; [exact H0 |];
              rewrite H1, H2; split; reflexivity |].
      split; [| intros ? H; discriminate H].
      intros ? _ _. rewrite H1. reflexivity.
  - unfold setTransportMode; cbv zeta. cbn [set_route currentRoute waypoints].
    destruct (Nat.leb_spec 2 (List.length (waypoints (currentRoute s)))) as [Hge | Hlt].
    + rewrite updateRouteOnMap_waypoints, updateRouteOnMap_mode.
      match goal with |- context [updateRouteOnMap ?t] =>
        destruct (Hupd t) as [(_ & _ & H3) | (H0 & H1 & H2)] end.
      * cbn in H3. lia.
      * split; [right; rewrite length_map; split; [exact H0 |];
                rewrite H1, H2; split; reflexivity |].
        split; [intros ? H; discriminate H |].
        intros ? _ _. rewrite H1. reflexivity.
    + cbn. split; [left; reflexivity |].
      split; [intros ? H; discriminate H |].
      intros ? _ Hlen. rewrite length_map in Hlen. lia.
  - split; [left; reflexivity | split; intros ? H; discriminate H].
  - split; [| split; intros ? H; discriminate H].
    left. unfold completeRoute. destruct (nth_error (pending s) k); [| reflexivity].
    cbv zeta. destruct (Routing.geometry _); reflexivity.
Qed.

(** X21.  When a request is in flight and the route is cleared, the
    settling of that request writes its distance, duration and geometry
    into the emptied route, shows them in the stats and draws a route line,
    while the route has no waypoint and the map no waypoint marker. *)
Theorem late_response_after_clear (s : State) (p : Pending)
    (rest : list Pending) (o : FetchOutcome) :
  pending s = p :: rest ->
  let routeData := resumeRoute (pend_coordinates p) (pend_mode p) o in
  let s' := completeRoute (clearRoute s) 0 o in
  waypoints (currentRoute s') = [] /\
  distance (currentRoute s') = Routing.distance routeData /\
  duration (currentRoute s') = Routing.duration routeData /\
  geometry (currentRoute s') = Routing.geometry routeData /\
  shown s' = stats_of routeData /\
  MapManager.routeLine (map s') <> None /\
  MapManager.waypointMarkers (map s') = [].
Proof.
  intros Hp. cbv zeta. unfold completeRoute, clearRoute. cbn. rewrite Hp.
  cbn. destruct (Routing.geometry _); cbn; repeat split; discriminate.
Qed.

End AggregateFacts.

Lemma updateWaypointMarkers_mirrors_witness :
  let m := MapManager.mkState None [] false in
  let wps : list (LatLng * string) :=
    [((64.3271, -20.1199), "Gullfoss"%string); ((64.3104, -20.3024), EmptyString)] in
  nth_error wps 1 = Some ((64.3104, -20.3024), EmptyString) /\
  nth_error (MapManager.waypointMarkers (MapManager.updateWaypointMarkers m wps)) 1 =
    Some (MapManager.mkMarker (64.3104, -20.3024) (1 + 1)
            (str_or EmptyString ("Punto " ++ nat_to_string (1 + 1)))).
Proof.
  cbv zeta. split; [reflexivity |].
  exact (proj1 (proj2 (updateWaypointMarkers_mirrors
                         (MapManager.mkState None [] false)
                         [((64.3271, -20.1199), "Gullfoss"%string);
                          ((64.3104, -20.3024), EmptyString)]))
           1%nat (64.3104, -20.3024) EmptyString eq_refl).
Defined.

Lemma in_order_last_wins_witness :
  let s := App.setTransportMode Sample.two_stops "walking" in
  let coords := [poi_coordinates Sample.gullfoss; poi_coordinates Sample.geysir] in
  let ps := [App.mkPending coords "driving"] in
  let p := App.mkPending coords "walking" in
  let os := [Sample.response 1000 60] in
  let o := Sample.response 900 700 in
  App.pending s = ps ++ [p] /\
  List.length os = List.length ps /\
  (let s' := Notions.settle_in_order s (os ++ [o]) in
   App.pending s' = [] /\
   shown s' = stats_of (resumeRoute (App.pend_coordinates p) (App.pend_mode p) o) /\
   App.waypoints (App.currentRoute s') = App.waypoints (App.currentRoute s) /\
   App.transportMode (App.currentRoute s') = App.transportMode (App.currentRoute s) /\
   App.requests s' = App.requests s).
Proof.
  cbv zeta. split; [reflexivity |]. split; [reflexivity |].
  apply (in_order_last_wins (App.setTransportMode Sample.two_stops "walking")
           [App.mkPending
              [poi_coordinates Sample.gullfoss; poi_coordinates Sample.geysir]
              "driving"]
           (App.mkPending
              [poi_coordinates Sample.gullfoss; poi_coordinates Sample.geysir]
              "walking")
           [Sample.response 1000 60] (Sample.response 900 700));
    reflexivity.
Defined.

Lemma waypoints_come_from_catalog_witness :
  let es := [App.AddWaypoint "gullfoss"; App.AddWaypoint "geysir"] in
  let wp := Notions.waypoint_of Sample.categories Sample.geysir in
  In wp (App.waypoints
           (App.currentRoute (App.run Sample.pois Sample.categories App.initial es))) /\
  exists poi,
    getPoiById Sample.pois (App.id wp) <> None /\
    In poi Sample.pois /\ wp = Notions.waypoint_of Sample.categories poi /\
    App.id wp = poi_id poi /\ App.name wp = poi_name poi /\
    App.coordinates wp = poi_coordinates poi.
Proof.
  cbv zeta.
  assert (Hin : In (Notions.waypoint_of Sample.categories Sample.geysir)
                  (App.waypoints
                     (App.currentRoute
                        (App.run Sample.pois Sample.categories App.initial
                           [App.AddWaypoint "gullfoss"; App.AddWaypoint "geysir"])))).
  { right. left. reflexivity. }
  split; [exact Hin |].
  exact (waypoints_come_from_catalog Sample.pois Sample.categories _ _ Hin).
Defined.

Lemma add_then_remove_restores_witness :
  let s := App.run Sample.pois Sample.categories App.initial
             [App.AddWaypoint "gullfoss"] in
  getPoiById Sample.pois "geysir" = Some Sample.geysir /\
  ~ In "geysir"%string (route_ids s) /\
  (let added := App.addWaypointFromPOI Sample.pois Sample.categories s "geysir" in
   let removed :=
     App.removeWaypoint added (List.length (App.waypoints (App.currentRoute s))) in
   App.waypoints (App.currentRoute added) =
     App.waypoints (App.currentRoute s) ++
     [Notions.waypoint_of Sample.categories Sample.geysir] /\
   App.waypoints (App.currentRoute removed) = App.waypoints (App.currentRoute s) /\
   App.transportMode (App.currentRoute removed) =
     App.transportMode (App.currentRoute s)).
Proof.
  cbv zeta.
  assert (Hnew : ~ In "geysir"%string
                   (route_ids (App.run Sample.pois Sample.categories App.initial
                                 [App.AddWaypoint "gullfoss"]))).
  { simpl. intuition discriminate. }
  split; [reflexivity |]. split; [exact Hnew |].
  exact (add_then_remove_restores Sample.pois Sample.categories _ "geysir"
           Sample.geysir eq_refl Hnew).
Defined.

Lemma request_describes_route_witness :
  let s := Sample.two_stops in
  let e := App.SetTransportMode "cycling" in
  let s' := App.step Sample.pois Sample.categories s e in
  let coords := List.map App.coordinates (App.waypoints (App.currentRoute s')) in
  let mode := App.transportMode (App.currentRoute s') in
  e = App.SetTransportMode "cycling" /\ (2 <= List.length coords)%nat /\
  App.requests s' = App.requests s ++ [buildRequest coords mode].
Proof.
  cbv zeta. split; [reflexivity |]. split; [simpl; lia |].
  apply (proj2 (proj2 (request_describes_route Sample.pois Sample.categories
                         Sample.two_stops (App.SetTransportMode "cycling")))
           "cycling"%string eq_refl).
  simpl; lia.
Defined.

Lemma late_response_after_clear_witness :
  let s := Sample.two_stops in
  let coords := [poi_coordinates Sample.gullfoss; poi_coordinates Sample.geysir] in
  let p := App.mkPending coords "driving" in
  let o := Sample.response 1000 60 in
  App.pending s = p :: [] /\
  (let routeData := resumeRoute (App.pend_coordinates p) (App.pend_mode p) o in
   let s' := App.completeRoute (App.clearRoute s) 0 o in
   App.waypoints (App.currentRoute s') = [] /\
   App.distance (App.currentRoute s') = distance routeData /\
   App.duration (App.currentRoute s') = duration routeData /\
   App.geometry (App.currentRoute s') = geometry routeData /\
   shown s' = stats_of routeData /\
   MapManager.routeLine (App.map s') <> None /\
   MapManager.waypointMarkers (App.map s') = []).
Proof.
  cbv zeta. split; [reflexivity |].
  apply (late_response_after_clear Sample.two_stops
           (App.mkPending
              [poi_coordinates Sample.gullfoss; poi_coordinates Sample.geysir]
              "driving")
           [] (Sample.response 1000 60)).
  reflexivity.
Defined.

(* ================================================================== *)
(** * Stored routes: export and import *)
(* ================================================================== *)

Section PersistenceFacts.

Import JsData Persistence Notions.

Lemma or_default_idem (v : option Json) (d : Json) :
  or_default (Some (or_default v d)) d = or_default v d.
Proof.
  destruct v as [x |]; simpl.
  - destruct (truthy x) eqn:E; simpl; [now rewrite E |].
    destruct (truthy d); reflexivity.
  - destruct (truthy d); reflexivity.
Qed.

(** X22.  A stored route exported with [exportAsJson] and imported again
    with [importFromJson] is created anew with the data [create] was first
    given: every property but the two timestamps is as in the stored route,
    and the stored [id] is dropped. *)
Theorem import_of_export_recreates (routeData : Json) (t1 t2 t3 t4 : string)
    (id : Json) :
  let stored := with_id (create routeData t1 t2) id in
  exportAsJson (Some stored) = Ok stored /\
  importFromJson stored t3 t4 = Ok (create routeData t3 t4) /\
  prop (create routeData t3 t4) "id" = None /\
  (forall key, key <> "createdAt"%string -> key <> "updatedAt"%string ->
     key <> "id"%string ->
     prop (create routeData t3 t4) key = prop stored key).
Proof.
  cbv zeta. split; [reflexivity |]. split; [| split; [reflexivity |]].
  - unfold importFromJson, with_id, create. cbn -[or_default].
    rewrite !or_default_idem. reflexivity.
  - intros key H1 H2 H3.
    assert (Hs : with_id (create routeData t1 t2) id =
                 JObj (match create routeData t1 t2 with
                       | JObj fields => fields ++ [("id"%string, id)]
                       | _ => []
                       end)) by reflexivity.
    rewrite Hs. unfold create, prop. cbn [assoc_get app].
    repeat match goal with
           | |- context [String.eqb ?k key] =>
               destruct (String.eqb_spec k key); [try reflexivity; congruence |]
           end.
    reflexivity.
Qed.

Lemma import_of_export_recreates_witness :
  let routeData :=
    JObj [("name"%string, JStr "Golden Circle");
          ("distance"%string, JNum 1000);
          ("transportMode"%string, JStr "cycling")] in
  let stored := with_id (create routeData "t1" "t2") (JNum 7) in
  "name"%string <> "createdAt"%string /\ "name"%string <> "updatedAt"%string /\
  "name"%string <> "id"%string /\
  prop (create routeData "t3" "t4") "name" = prop stored "name".
Proof.
  cbv zeta.
  split; [discriminate |]. split; [discriminate |]. split; [discriminate |].
  apply (import_of_export_recreates
           (JObj [("name"%string, JStr "Golden Circle");
                  ("distance"%string, JNum 1000);
                  ("transportMode"%string, JStr "cycling")])
           "t1" "t2" "t3" "t4" (JNum 7)); discriminate.
Defined.

(** X23.  The file [exportToJSON] downloads nests the route under the key
    [route]; [importFromJson] reads the route's properties at the top
    level, so importing such a file creates a route with every default:
    the name "Ruta sin nombre", no waypoints, distance and duration 0, mode
    "driving", no geometry. *)
Theorem import_of_download_is_blank (route : Json) (exportDate t1 t2 : string) :
  importFromJson (exportToJSON route exportDate) t1 t2 =
    Ok (create (JObj []) t1 t2) /\
  create (JObj []) t1 t2 =
    JObj [("name"%string, JStr "Ruta sin nombre");
          ("description"%string, JStr EmptyString);
          ("waypoints"%string, JArr []);
          ("distance"%string, JNum 0);
          ("duration"%string, JNum 0);
          ("transportMode"%string, JStr "driving");
          ("routeGeometry"%string, JNull);
          ("createdAt"%string, JStr t1);
          ("updatedAt"%string, JStr t2)] /\
  prop (exportToJSON route exportDate) "route" <> None.
Proof. split; [reflexivity |]. split; [reflexivity | discriminate]. Qed.

End PersistenceFacts.
